(** * VariableDomain and DomainRestrictedVariable

    A shallow embedding of [include/domain_restricted_variable.hpp]: a
    [VariableDomain] owns a [std::set] of allowed values and a registry of the
    [DomainRestrictedVariable]s that observe it; every variable holds a pointer
    into the set of its domain and is told when the element it points at is
    deleted or replaced.

    Objects live at addresses.  The state of a program is a [world]: the
    domains and the variables that are alive, each under its address.  The
    nodes of a [std::set] have addresses of their own; the identity of an
    element is the address of its node.

    A member function takes the world it runs in and returns what it
    returns together with the world it leaves, or [None] where the header
    has no defined behaviour: a call on an object that is not alive, an
    [erase] of an iterator that designates no element, a function that
    ends without the [return] its type asks for, a call that never comes
    back. *)

From stdpp Require Import base option list strings gmap sets.
From Stdlib Require Import ZArith.

(** ** Pointers

    The header passes set iterators wherever a [value_type*] is expected
    ([deletionNotice(iter)], [m_value(domain.m_allowed_values.end())]).  An
    iterator is therefore identified with the address it designates: the node
    of an element, or, for [end()], the sentinel of the set it belongs to.
    [nullptr] is a third kind of pointer: it is what [clear] stores and what
    [has_value] tests for. *)

Inductive pointer : Type :=
  | nullptr
  | past_the_end (d : nat)
  | node (a : nat).

#[global] Instance pointer_eq_dec : EqDecision pointer.
Proof. solve_decision. Defined.

(** ** The objects *)

Record VariableDomain (value_type : Type) : Type := mkDomain {
  m_allowed_values : list (nat * value_type);
  m_managed_variables : gset nat
}.
Arguments mkDomain {value_type} _ _.
Arguments m_allowed_values {value_type} _.
Arguments m_managed_variables {value_type} _.

Record DomainRestrictedVariable : Type := mkVariable {
  m_domain : nat;
  m_value : pointer
}.

Record world (value_type : Type) : Type := mkWorld {
  domains : gmap nat (VariableDomain value_type);
  variables : gmap nat DomainRestrictedVariable
}.
Arguments mkWorld {value_type} _ _.
Arguments domains {value_type} _.
Arguments variables {value_type} _.

(** What leaves a destructor: the world without the object, or the exception
    that the destructor threw. *)
Inductive teardown (value_type : Type) : Type :=
  | destroyed (w : world value_type)
  | logic_error (what : string).
Arguments destroyed {value_type} _.
Arguments logic_error {value_type} _.

(** ** [std::set<value_type, Compare>]

    The set is the list of its nodes in ascending order, each node an address
    paired with the element stored there.  [find], [insert] and [erase]
    follow the library's contract: lookup is by equivalence under
    [Compare], inserting an element that has an equivalent in the set returns
    the node of that equivalent, and erasing wants an iterator that designates
    a node of this set (anything else is undefined, [None]). *)

Module StdSet.
Section set.
Context {value_type : Type}.
Variable Compare : value_type → value_type → bool.

(** Two values the order cannot tell apart. *)
Definition equivalent (x y : value_type) : bool :=
  negb (Compare x y) && negb (Compare y x).

(** [find(value)], in the set of the domain at address [d]. *)
Fixpoint find (d : nat) (value : value_type) (s : list (nat * value_type))
    : pointer :=
  match s with
  | [] => past_the_end d
  | n :: s' => if equivalent value n.2 then node n.1 else find d value s'
  end.

(** A new node goes in front of the first element that it precedes. *)
Fixpoint place (n : nat * value_type) (s : list (nat * value_type))
    : list (nat * value_type) :=
  match s with
  | [] => [n]
  | m :: s' => if Compare n.2 m.2 then n :: m :: s' else m :: place n s'
  end.

(** [insert(value)]: the pair it returns, and the set afterwards.  [a] is
    the address the allocator hands out for the new node, should one be
    needed. *)
Definition insert (d a : nat) (value : value_type)
    (s : list (nat * value_type))
    : pointer * bool * list (nat * value_type) :=
  match find d value s with
  | node p => (node p, false, s)
  | _ => (node a, true, place (a, value) s)
  end.

Definition is_node (it : pointer) (s : list (nat * value_type)) : bool :=
  match it with
  | node a => existsb (λ n, Nat.eqb n.1 a) s
  | _ => false
  end.

(** [erase(it)]. *)
Definition erase (it : pointer) (s : list (nat * value_type))
    : option (list (nat * value_type)) :=
  match it with
  | node a =>
      if is_node it s then Some (List.filter (λ n, negb (Nat.eqb n.1 a)) s)
      else None
  | _ => None
  end.

(** [*it]: the element an iterator designates, if it designates one. *)
Fixpoint deref (it : pointer) (s : list (nat * value_type))
    : option value_type :=
  match s with
  | [] => None
  | n :: s' => if decide (it = node n.1) then Some n.2 else deref it s'
  end.

(** The representation invariant of the library: no two nodes share an
    address and no two elements are equivalent. *)
Fixpoint well_formed (s : list (nat * value_type)) : bool :=
  match s with
  | [] => true
  | n :: s' =>
      forallb (λ m, negb (Nat.eqb m.1 n.1) && negb (equivalent n.2 m.2)) s'
      && well_formed s'
  end.

(** What follows from it, as a proposition. *)
Definition unique_nodes (s : list (nat * value_type)) : Prop :=
  ∀ n m, n ∈ s → m ∈ s →
    n.1 = m.1 ∨ equivalent n.2 m.2 = true → n = m.

(** What the allocator promises of a new node: its address is that of no
    node of the set. *)
Definition fresh (a : nat) (s : list (nat * value_type)) : bool :=
  forallb (λ n, negb (Nat.eqb n.1 a)) s.

(** [insert(first, last)] and [insert(ilist)]: the elements go in one after
    the other, each with the address its node would get. *)
Definition insert_range (d : nat) (l s : list (nat * value_type))
    : list (nat * value_type) :=
  foldl (λ s n, (insert d n.1 n.2 s).2) s l.

(** [begin()]. *)
Definition begin (d : nat) (s : list (nat * value_type)) : pointer :=
  match s with
  | [] => past_the_end d
  | n :: _ => node n.1
  end.

(** The order of the nodes: every element precedes those behind it. *)
Fixpoint ascending (s : list (nat * value_type)) : bool :=
  match s with
  | [] => true
  | n :: s' => forallb (λ m, Compare n.2 m.2) s' && ascending s'
  end.
End set.
End StdSet.

(** The comparators the header can be used with: the default, which
    compares two values, and the transparent one, which compares whatever
    it is given with [<]. *)
Inductive comparator : Type :=
  | std_less_value_type
  | std_less_void.

(** ** The two classes *)

Section program.
Context {value_type : Type}.

(** The order of the set: what its comparator answers on two values. *)
Variable Compare : value_type → value_type → bool.

(** [removeAllowedValue] tests [value == m_allowed_values.end()]: it
    compares its argument, not the iterator it has just found, with the
    end of the set.  The header declares no such comparison, so it is a
    parameter: whatever [operator==] the value type brings along.  It sees
    the value and the iterator and nothing of the set's contents. *)
Variable value_eq_iterator : value_type → pointer → bool.

#[local] Abbreviation World := (world value_type).

Definition store_domain (d : nat) (dom : VariableDomain value_type)
    (w : World) : World :=
  mkWorld (<[d := dom]> (domains w)) (variables w).

Definition store_variable (h : nat) (var : DomainRestrictedVariable)
    (w : World) : World :=
  mkWorld (domains w) (<[h := var]> (variables w)).

(** *** DomainRestrictedVariable: what touches one variable only

    [clear] (lines 475-478), [has_value] (480-483) and the two private
    notices (538-555). *)

Definition clear (var : DomainRestrictedVariable) : DomainRestrictedVariable :=
  mkVariable (m_domain var) nullptr.

Definition has_value (var : DomainRestrictedVariable) : bool :=
  bool_decide (m_value var ≠ nullptr).

Definition DomainRestrictedVariable_deletionNotice (to_delete : pointer)
    (var : DomainRestrictedVariable) : DomainRestrictedVariable :=
  if decide (m_value var = to_delete) then clear var else var.

Definition DomainRestrictedVariable_replacementNotice
    (to_replace replacement : pointer)
    (var : DomainRestrictedVariable) : DomainRestrictedVariable :=
  if decide (m_value var = to_replace)
  then mkVariable (m_domain var) replacement
  else var.

(** *** VariableDomain *)

(** [isAllowedValue] (lines 257-262). *)
Definition isAllowedValue (this : nat) (value : value_type) (w : World)
    : option bool :=
  dom ← domains w !! this;
  Some (bool_decide
          (StdSet.find Compare this value (m_allowed_values dom)
           ≠ past_the_end this)).

(** [addAllowedValue] (lines 274-279); [a] is the address of the node, if
    one is allocated. *)
Definition addAllowedValue (a this : nat) (value : value_type) (w : World)
    : option (bool * World) :=
  dom ← domains w !! this;
  let '(_, second, s) :=
    StdSet.insert Compare this a value (m_allowed_values dom) in
  Some (second, store_domain this (mkDomain s (m_managed_variables dom)) w).

(** [subscribeVariable] and [unsubscribeVariable] (lines 370-382). *)
Definition subscribeVariable (this ptr : nat) (w : World) : option World :=
  dom ← domains w !! this;
  Some (store_domain this
          (mkDomain (m_allowed_values dom) ({[ptr]} ∪ m_managed_variables dom))
          w).

Definition unsubscribeVariable (this ptr : nat) (w : World) : option World :=
  dom ← domains w !! this;
  Some (store_domain this
          (mkDomain (m_allowed_values dom) (m_managed_variables dom ∖ {[ptr]}))
          w).

(** [for(auto& var : m_managed_variables) var->notice(...)], the loop of
    both notices (lines 384-401).  Every path that ends the life of a
    variable takes it out of the registry first, so the registry holds
    variables that are alive. *)
Definition notify (notice : DomainRestrictedVariable → DomainRestrictedVariable)
    (vars : list nat) (w : World) : World :=
  foldl (λ w var, mkWorld (domains w) (alter notice var (variables w))) w vars.

Definition VariableDomain_deletionNotice (this : nat) (to_delete : pointer)
    (w : World) : option World :=
  dom ← domains w !! this;
  Some (notify (DomainRestrictedVariable_deletionNotice to_delete)
          (elements (m_managed_variables dom)) w).

Definition VariableDomain_replacementNotice (this : nat)
    (to_replace replacement : pointer) (w : World) : option World :=
  dom ← domains w !! this;
  Some (notify (DomainRestrictedVariable_replacementNotice to_replace replacement)
          (elements (m_managed_variables dom)) w).

(** [removeAllowedValue] (lines 311-323).  Past its test it sends the
    notice for what [find] returned and erases it, be that a node or
    [end()]. *)
Definition removeAllowedValue (this : nat) (value : value_type) (w : World)
    : option (bool * World) :=
  dom ← domains w !! this;
  let iter := StdSet.find Compare this value (m_allowed_values dom) in
  if value_eq_iterator value (past_the_end this) then Some (false, w)
  else
    w1 ← VariableDomain_deletionNotice this iter w;
    dom1 ← domains w1 !! this;
    s ← StdSet.erase iter (m_allowed_values dom1);
    Some (true, store_domain this (mkDomain s (m_managed_variables dom1)) w1).

(** [replaceAllowedValue] (lines 334-368): both overloads, [const
    value_type&] and [value_type&&] replacement, have this one body. *)
Definition replaceAllowedValue (a this : nat) (to_replace replacement : value_type)
    (w : World) : option (bool * World) :=
  dom ← domains w !! this;
  let iter := StdSet.find Compare this to_replace (m_allowed_values dom) in
  if decide (iter = past_the_end this) then Some (false, w)
  else
    let '(first, _, s1) :=
      StdSet.insert Compare this a replacement (m_allowed_values dom) in
    let w1 := store_domain this (mkDomain s1 (m_managed_variables dom)) w in
    w2 ← VariableDomain_replacementNotice this iter first w1;
    dom2 ← domains w2 !! this;
    s ← StdSet.erase iter (m_allowed_values dom2);
    Some (true, store_domain this (mkDomain s (m_managed_variables dom2)) w2).

(** [~VariableDomain] (lines 193-199). *)
Definition VariableDomain_dtor (this : nat) (w : World)
    : option (teardown value_type) :=
  dom ← domains w !! this;
  if decide (m_managed_variables dom = ∅)
  then Some (destroyed (mkWorld (delete this (domains w)) (variables w)))
  else Some (logic_error
    "Cannot destroy a VariableDomain if DomainRestrictedVariable(s) depend on it.").

(** *** DomainRestrictedVariable: the members that need the world

    [this] is the address of the variable the member runs on; for a
    constructor, the address of the object under construction. *)

Definition get_m_domain (h : nat) (w : World) : option nat :=
  m_domain <$> variables w !! h.

Definition get_m_value (h : nat) (w : World) : option pointer :=
  m_value <$> variables w !! h.

Definition set_m_domain (h d : nat) (w : World) : option World :=
  var ← variables w !! h;
  Some (store_variable h (mkVariable d (m_value var)) w).

Definition set_m_value (h : nat) (p : pointer) (w : World) : option World :=
  var ← variables w !! h;
  Some (store_variable h (mkVariable (m_domain var) p) w).

(** [DomainRestrictedVariable(domain, value)] (lines 403-410).  The header writes
    [domain.find(value)]; the find in reach is that of [m_allowed_values],
    the one [operator=(const value_type&)] calls. *)
Definition DomainRestrictedVariable_ctor_value (this domain : nat)
    (value : value_type) (w : World) : option World :=
  dom ← domains w !! domain;
  let it := StdSet.find Compare domain value (m_allowed_values dom) in
  subscribeVariable domain this
    (store_variable this (mkVariable domain it) w).

(** [DomainRestrictedVariable(domain)] (lines 412-418). *)
Definition DomainRestrictedVariable_ctor_domain (this domain : nat)
    (w : World) : option World :=
  _ ← domains w !! domain;
  subscribeVariable domain this
    (store_variable this (mkVariable domain (past_the_end domain)) w).

(** [DomainRestrictedVariable(const DomainRestrictedVariable& other)]
    (lines 420-426). *)
Definition DomainRestrictedVariable_ctor_copy (this other : nat)
    (w : World) : option World :=
  o ← variables w !! other;
  subscribeVariable (m_domain o) this
    (store_variable this (mkVariable (m_domain o) (m_value o)) w).

(** [DomainRestrictedVariable(DomainRestrictedVariable&& other)]
    (lines 428-436). *)
Definition DomainRestrictedVariable_ctor_move (this other : nat)
    (w : World) : option World :=
  o ← variables w !! other;
  let w := store_variable this (mkVariable (m_domain o) (m_value o)) w in
  w ← set_m_value other nullptr w;
  d ← get_m_domain this w;
  w ← unsubscribeVariable d other w;
  d ← get_m_domain this w;
  subscribeVariable d this w.

(** [~DomainRestrictedVariable] (lines 438-441). *)
Definition DomainRestrictedVariable_dtor (this : nat) (w : World)
    : option World :=
  d ← get_m_domain this w;
  w ← unsubscribeVariable d this w;
  Some (mkWorld (domains w) (delete this (variables w))).

(** The three assignment operators are declared to return
    [DomainRestrictedVariable&] and have no [return] statement: control
    flows off the end of each of them, which is undefined on every call.
    For each, the statements of the body come first, as they are written,
    and then the operator itself: the statements, and no result. *)

(** The statements of [operator=(const DomainRestrictedVariable& other)]
    (lines 448-451). *)
Definition operator_assign_copy_statements (this other : nat) (w : World)
    : option World :=
  d ← get_m_domain this w;
  w ← unsubscribeVariable d this w;
  od ← get_m_domain other w;
  w ← set_m_domain this od w;
  d ← get_m_domain this w;
  w ← subscribeVariable d this w;
  ov ← get_m_value other w;
  set_m_value this ov w.

(** [operator=(const DomainRestrictedVariable& other)] (lines 443-452). *)
Definition operator_assign_copy (this other : nat) (w : World)
    : option (nat * World) :=
  _ ← operator_assign_copy_statements this other w;
  None.

(** The statements of [operator=(DomainRestrictedVariable&& other)]
    (lines 459-464). *)
Definition operator_assign_move_statements (this other : nat) (w : World)
    : option World :=
  d ← get_m_domain this w;
  w ← unsubscribeVariable d this w;
  od ← get_m_domain other w;
  w ← unsubscribeVariable od other w;
  od ← get_m_domain other w;
  w ← set_m_domain this od w;
  d ← get_m_domain this w;
  w ← subscribeVariable d this w;
  ov ← get_m_value other w;
  w ← set_m_value this ov w;
  set_m_value other nullptr w.

(** [operator=(DomainRestrictedVariable&& other)] (lines 454-465). *)
Definition operator_assign_move (this other : nat) (w : World)
    : option (nat * World) :=
  _ ← operator_assign_move_statements this other w;
  None.

(** The statement of [operator=(const value_type& value)] (line 472). *)
Definition operator_assign_value_statements (this : nat) (value : value_type)
    (w : World) : option World :=
  d ← get_m_domain this w;
  dom ← domains w !! d;
  set_m_value this (StdSet.find Compare d value (m_allowed_values dom)) w.

(** [operator=(const value_type& value)] (lines 467-473). *)
Definition operator_assign_value (this : nat) (value : value_type)
    (w : World) : option (nat * World) :=
  _ ← operator_assign_value_statements this value w;
  None.

(** [operator value_type()] (lines 485-488): [*m_value].  Undefined ([None]) unless
    [m_value] is the address of a node of the set of [m_domain]. *)
Definition operator_value_type (this : nat) (w : World) : option value_type :=
  var ← variables w !! this;
  dom ← domains w !! (m_domain var);
  StdSet.deref (m_value var) (m_allowed_values dom).

(** The comparison operators (lines 490-536).  [operator<] returns
    [Compare()(lhs, rhs)], and what it hands to the comparator are the two
    handles themselves, as [const] references; the conversion to
    [value_type] (line 128) is not a [const] member.  A comparator of
    values ([std::less<value_type>], the default) therefore cannot take
    them: there is no call.  A transparent comparator ([std::less<>])
    takes them as they are and evaluates [lhs < rhs], which is
    [operator<] again.  [fuel] bounds the depth of the calls. *)
Fixpoint operator_lt (c : comparator) (fuel : nat) (lhs rhs : nat)
    (w : World) : option bool :=
  match fuel with
  | 0 => None
  | S fuel =>
      match c with
      | std_less_value_type => None
      | std_less_void => operator_lt c fuel lhs rhs w
      end
  end.

(** [Compare()(lhs, rhs)] on two handles. *)
Definition Compare_call (c : comparator) (fuel : nat) (lhs rhs : nat)
    (w : World) : option bool :=
  match c with
  | std_less_value_type => None
  | std_less_void => operator_lt c fuel lhs rhs w
  end.

Definition operator_eq (c : comparator) (fuel : nat) (lhs rhs : nat)
    (w : World) : option bool :=
  c1 ← Compare_call c fuel lhs rhs w;
  c2 ← Compare_call c fuel rhs lhs w;
  Some (eqb c1 c2).

Definition operator_ne (c : comparator) (fuel : nat) (lhs rhs : nat)
    (w : World) : option bool :=
  negb <$> operator_eq c fuel lhs rhs w.

Definition operator_gt (c : comparator) (fuel : nat) (lhs rhs : nat)
    (w : World) : option bool :=
  operator_lt c fuel rhs lhs w.

Definition operator_le (c : comparator) (fuel : nat) (lhs rhs : nat)
    (w : World) : option bool :=
  negb <$> operator_gt c fuel lhs rhs w.

Definition operator_ge (c : comparator) (fuel : nat) (lhs rhs : nat)
    (w : World) : option bool :=
  negb <$> operator_lt c fuel lhs rhs w.

(** *** The members no claim needed *)

(** The constructors of [VariableDomain] (lines 175-191): the set is built
    from the elements given, in their order, and the registry is empty.
    [ilist] pairs every element with the address its node would get; the
    constructor from a comparator alone is the one with no elements. *)
Definition VariableDomain_ctor (this : nat) (ilist : list (nat * value_type))
    (w : World) : World :=
  store_domain this
    (mkDomain (StdSet.insert_range Compare this ilist []) ∅) w.

(** [begin()], [cbegin()] (lines 201-213) and [end()], [cend()]
    (lines 215-227). *)
Definition VariableDomain_begin (this : nat) (w : World) : option pointer :=
  dom ← domains w !! this;
  Some (StdSet.begin this (m_allowed_values dom)).

Definition VariableDomain_end (this : nat) (w : World) : option pointer :=
  _ ← domains w !! this;
  Some (past_the_end this).

(** [addAllowedValuesRange] and [addAllowedValues] (lines 288-301). *)
Definition addAllowedValues (this : nat) (ilist : list (nat * value_type))
    (w : World) : option World :=
  dom ← domains w !! this;
  Some (store_domain this
          (mkDomain (StdSet.insert_range Compare this ilist
                       (m_allowed_values dom))
                    (m_managed_variables dom))
          w).

(** [removeAllowedValues] (lines 325-332). *)
Fixpoint removeAllowedValues (this : nat) (ilist : list value_type)
    (w : World) : option World :=
  match ilist with
  | [] => Some w
  | value :: ilist =>
      (r ← removeAllowedValue this value w;
       removeAllowedValues this ilist r.2)
  end.

(** [clear()] (lines 475-478) on the variable at [this]. *)
Definition DomainRestrictedVariable_clear (this : nat) (w : World)
    : option World :=
  set_m_value this nullptr w.

(** Running the destructors of the variables on a list, one after the
    other. *)
Fixpoint destroy_variables (hs : list nat) (w : World) : option World :=
  match hs with
  | [] => Some w
  | h :: hs =>
      (w ← DomainRestrictedVariable_dtor h w; destroy_variables hs w)
  end.

(** *** The invariant the notices are there for

    Every variable in the registry of a domain is alive, and either has no
    value or points at a node of the set of that domain. *)
Definition subscriber_consistent (dom : VariableDomain value_type)
    (w : World) (h : nat) : bool :=
  match variables w !! h with
  | Some var =>
      negb (has_value var)
      || StdSet.is_node (m_value var) (m_allowed_values dom)
  | None => false
  end.

Definition consistent (w : World) : bool :=
  forallb
    (λ entry, forallb (subscriber_consistent entry.2 w)
                      (elements (m_managed_variables entry.2)))
    (map_to_list (domains w)).

(** *** What a move has to achieve

    [o] is what the source held before the move and [w'] the world after
    it: the destination holds what the source held; the source is empty
    and out of the registry of its domain; the destination is in it, and
    a notice that the domain sends out from now on does to the
    destination what it would have done to the source. *)
Definition transferred (this other : nat) (o : DomainRestrictedVariable)
    (w' : World) : Prop :=
  variables w' !! this = Some o
  ∧ (∃ o', variables w' !! other = Some o' ∧ has_value o' = false)
  ∧ (∃ dom', domains w' !! (m_domain o) = Some dom'
             ∧ (other ∉ m_managed_variables dom')
             ∧ this ∈ m_managed_variables dom')
  ∧ (∀ to_delete, ∃ w'',
       VariableDomain_deletionNotice (m_domain o) to_delete w' = Some w''
       ∧ variables w'' !! this
         = Some (DomainRestrictedVariable_deletionNotice to_delete o))
  ∧ (∀ to_replace replacement, ∃ w'',
       VariableDomain_replacementNotice (m_domain o) to_replace replacement w'
       = Some w''
       ∧ variables w'' !! this
         = Some (DomainRestrictedVariable_replacementNotice
                   to_replace replacement o)).
End program.

(** ** A program to try things on: [int] under [std::less] *)

Module Example.
Definition less : Z → Z → bool := Z.ltb.

(** The domain at address 0 holds 1, 2 and 3 in the nodes at 10, 20 and 30.
    The variables at 100 and 101 are bound to it and point at 2 and at 1. *)
Definition d123 : VariableDomain Z :=
  mkDomain [(10, 1%Z); (20, 2%Z); (30, 3%Z)] {[100; 101]}.

Definition w0 : world Z :=
  mkWorld {[0 := d123]}
          {[100 := mkVariable 0 (node 20); 101 := mkVariable 0 (node 10)]}.

(** The domain before any variable is bound to it. *)
Definition w_unbound : world Z :=
  mkWorld {[0 := mkDomain [(10, 1%Z); (20, 2%Z); (30, 3%Z)] ∅]} ∅.

(** The same domain without the 2, the variable at 100 empty. *)
Definition d13 : VariableDomain Z :=
  mkDomain [(10, 1%Z); (30, 3%Z)] {[100; 101]}.

Definition w13 : world Z :=
  mkWorld {[0 := d13]}
          {[100 := mkVariable 0 nullptr; 101 := mkVariable 0 (node 10)]}.
End Example.

(** ** Facts about the set *)

Section set_facts.
Context {value_type : Type}.
Variable Compare : value_type → value_type → bool.

#[local] Abbreviation equivalent := (StdSet.equivalent Compare).
#[local] Abbreviation find := (StdSet.find Compare).
#[local] Abbreviation place := (StdSet.place Compare).

#[local] Abbreviation unique_nodes := (StdSet.unique_nodes Compare).

Lemma equivalent_sym x y : equivalent x y = equivalent y x.
Proof. unfold StdSet.equivalent. apply andb_comm. Qed.

Lemma well_formed_unique s :
  StdSet.well_formed Compare s = true → unique_nodes s.
Proof.
  induction s as [|n0 s IH]; intros Hwf n m Hn Hm Hnm.
  - inversion Hn.
  - simpl in Hwf. apply andb_true_iff in Hwf as [Hhd Htl].
    rewrite forallb_forall in Hhd.
    assert (Hsep : ∀ k, k ∈ s →
              k.1 ≠ n0.1 ∧ equivalent n0.2 k.2 = false).
    { intros k Hk. apply list_elem_of_In, Hhd, andb_true_iff in Hk as [H1 H2].
      apply negb_true_iff in H1, H2. apply Nat.eqb_neq in H1. done. }
    apply elem_of_cons in Hn as [->|Hn], Hm as [->|Hm];
      [done| | |by apply (IH Htl)].
    + destruct (Hsep _ Hm) as [H1 H2].
      destruct Hnm as [Hnm|Hnm]; [by symmetry in Hnm | congruence].
    + destruct (Hsep _ Hn) as [H1 H2].
      destruct Hnm as [Hnm|Hnm]; [done |].
      rewrite equivalent_sym in Hnm. congruence.
Qed.

Lemma unique_nodes_tail n s : unique_nodes (n :: s) → unique_nodes s.
Proof. intros H k m Hk Hm. apply H; by constructor. Qed.

(** [find] returns the end of its own set, or the node of an equivalent
    element; never anything else. *)
Lemma find_cases d value (s : list (nat * value_type)) :
  (find d value s = past_the_end d
     ∧ ∀ n, n ∈ s → equivalent value n.2 = false)
  ∨ (∃ n, n ∈ s ∧ equivalent value n.2 = true ∧ find d value s = node n.1).
Proof.
  induction s as [|n0 s IH]; simpl.
  - left. split; [done|]. intros n Hn. inversion Hn.
  - destruct (equivalent value n0.2) eqn:He.
    + right. exists n0. split; [by left | done].
    + destruct IH as [[Hf Hall]|(n & Hn & Hen & Hf)].
      * left. split; [done|].
        intros n [->|Hn]%elem_of_cons; [done | by apply Hall].
      * right. exists n. split; [by right | done].
Qed.

Lemma find_not_nullptr d value s : find d value s ≠ nullptr.
Proof.
  destruct (find_cases d value s) as [[-> _]|(n & _ & _ & ->)]; done.
Qed.

Lemma find_elem d value (s : list (nat * value_type)) n :
  n ∈ s → equivalent value n.2 = true → find d value s ≠ past_the_end d.
Proof.
  intros Hn He.
  destruct (find_cases d value s) as [[_ Hall]|(m & _ & _ & ->)]; [|done].
  rewrite (Hall n Hn) in He. done.
Qed.

Lemma deref_elem it (s : list (nat * value_type)) (u : value_type) :
  StdSet.deref it s = Some u → ∃ a, it = node a ∧ (a, u) ∈ s.
Proof.
  induction s as [|[a0 u0] s IH]; simpl; [done|].
  case_decide as Hit.
  - intros [= <-]. exists a0. split; [done | by left].
  - intros (a & -> & Ha)%IH. exists a. split; [done | by right].
Qed.

Lemma deref_unique a (u : value_type) (s : list (nat * value_type)) :
  unique_nodes s → (a, u) ∈ s → StdSet.deref (node a) s = Some u.
Proof.
  induction s as [|[a0 u0] s IH]; intros Hun Hin; [inversion Hin|].
  simpl. case_decide as Hit.
  - injection Hit as ->.
    assert ((a0, u) = (a0, u0)) as [= ->]; [|done].
    apply Hun; [done | by left | by left].
  - apply elem_of_cons in Hin as [[= -> ->]|Hin]; [done|].
    apply IH; [by eapply unique_nodes_tail | done].
Qed.

Lemma elem_of_place n m (s : list (nat * value_type)) : m ∈ place n s ↔ m = n ∨ m ∈ s.
Proof.
  induction s as [|k s IH]; simpl.
  - rewrite list_elem_of_singleton. split; [by left | intros [?|H]; [done | inversion H]].
  - destruct (Compare n.2 k.2).
    + by rewrite elem_of_cons.
    + rewrite !elem_of_cons, IH. tauto.
Qed.

Lemma elem_of_erase_filter a (m : nat * value_type) s :
  m ∈ List.filter (λ n, negb (Nat.eqb n.1 a)) s ↔ m ∈ s ∧ m.1 ≠ a.
Proof.
  rewrite !list_elem_of_In, filter_In, negb_true_iff, Nat.eqb_neq. done.
Qed.

Lemma is_node_elem a (u : value_type) (s : list (nat * value_type)) : (a, u) ∈ s → StdSet.is_node (node a) s = true.
Proof.
  intros Hin. simpl. apply existsb_exists. exists (a, u).
  split; [by apply list_elem_of_In | by apply Nat.eqb_eq].
Qed.

Lemma is_node_inv it (s : list (nat * value_type)) :
  StdSet.is_node it s = true → ∃ a u, it = node a ∧ (a, u) ∈ s.
Proof.
  destruct it as [| |a]; [done..|]. cbn [StdSet.is_node].
  intros ([a' u] & Hn & Heq)%existsb_exists. apply Nat.eqb_eq in Heq.
  cbn [fst] in Heq. subst a'. exists a, u. by rewrite list_elem_of_In.
Qed.

Lemma fresh_elem a (s : list (nat * value_type)) n : StdSet.fresh a s = true → n ∈ s → n.1 ≠ a.
Proof.
  unfold StdSet.fresh. rewrite forallb_forall. intros Hall Hn.
  apply list_elem_of_In, Hall, negb_true_iff, Nat.eqb_neq in Hn. done.
Qed.

Lemma find_node_in d value (s : list (nat * value_type)) p :
  find d value s = node p →
  ∃ u, (p, u) ∈ s ∧ equivalent value u = true.
Proof.
  intros Hf.
  destruct (find_cases d value s) as [[Hf' _]|([p' u] & Hm & He & Hf')];
    [congruence|].
  rewrite Hf in Hf'. injection Hf' as ->. by exists u.
Qed.

(** [insert] either meets an equivalent element and leaves the set alone,
    or puts a new node, at the address it is given, into the set. *)
Lemma insert_cases d a value (s : list (nat * value_type)) :
  (∃ p, find d value s = node p
        ∧ StdSet.insert Compare d a value s = (node p, false, s))
  ∨ (find d value s = past_the_end d
     ∧ StdSet.insert Compare d a value s
       = (node a, true, place (a, value) s)).
Proof.
  unfold StdSet.insert.
  destruct (find_cases d value s) as [[Hf _]|(n & _ & _ & Hf)]; rewrite Hf.
  - by right.
  - left. by exists n.1.
Qed.

Lemma insert_keeps d a value (s : list (nat * value_type)) n :
  n ∈ s → n ∈ (StdSet.insert Compare d a value s).2.
Proof.
  intros Hn.
  destruct (insert_cases d a value s) as [(p & _ & ->)|[_ ->]]; simpl;
    [done|].
  apply elem_of_place. by right.
Qed.

Lemma unique_nodes_subseteq (s s' : list (nat * value_type)) :
  unique_nodes s → (∀ n, n ∈ s' → n ∈ s) → unique_nodes s'.
Proof. intros Hun Hsub n m Hn Hm. apply Hun; by apply Hsub. Qed.

Lemma unique_nodes_place n (s : list (nat * value_type)) :
  unique_nodes s →
  (∀ m, m ∈ s → m.1 ≠ n.1 ∧ equivalent n.2 m.2 = false) →
  unique_nodes (place n s).
Proof.
  intros Hun Hsep k m [->|Hk]%elem_of_place [->|Hm]%elem_of_place Hkm;
    [done | | |by apply Hun].
  - destruct (Hsep _ Hm) as [H1 H2].
    destruct Hkm as [Hkm|Hkm]; [by symmetry in Hkm | congruence].
  - destruct (Hsep _ Hk) as [H1 H2].
    destruct Hkm as [Hkm|Hkm]; [done|].
    rewrite equivalent_sym in Hkm. congruence.
Qed.

(** *** The mutators of the set keep it well formed *)

Lemma forallb_place (P : nat * value_type → bool) n s :
  forallb P (place n s) = P n && forallb P s.
Proof.
  induction s as [|m s IH]; simpl; [done|].
  destruct (Compare n.2 m.2); simpl; [done|].
  rewrite IH. by destruct (P n), (P m).
Qed.

Lemma well_formed_place d a value (s : list (nat * value_type)) :
  StdSet.well_formed Compare s = true →
  StdSet.fresh a s = true →
  find d value s = past_the_end d →
  StdSet.well_formed Compare (place (a, value) s) = true.
Proof.
  induction s as [|m s IH]; [done|]. intros Hwf Hfresh Hfind.
  assert (Hsep : ∀ k, k ∈ m :: s →
            negb (Nat.eqb k.1 a) && negb (equivalent value k.2) = true).
  { intros k Hk. apply andb_true_iff. split.
    - apply negb_true_iff, Nat.eqb_neq. by eapply fresh_elem.
    - destruct (find_cases d value (m :: s)) as [[_ Hall]|(n & _ & _ & Hn)];
        [|congruence].
      by rewrite (Hall k Hk). }
  cbn [StdSet.place fst snd]. destruct (Compare value m.2) eqn:Hcmp.
  - cbn [StdSet.well_formed] in *. rewrite Hwf, andb_true_r.
    apply forallb_forall. intros k Hk%list_elem_of_In. by apply Hsep.
  - cbn [StdSet.well_formed] in *.
    apply andb_true_iff in Hwf as [Hhd Htl].
    rewrite forallb_place, Hhd, andb_true_r. apply andb_true_iff. split.
    + specialize (Hsep m (list_elem_of_here _ _)).
      apply andb_true_iff in Hsep as [H1 H2]. cbn [fst snd].
      rewrite (equivalent_sym m.2 value), H2, andb_true_r.
      apply negb_true_iff, Nat.eqb_neq.
      apply negb_true_iff, Nat.eqb_neq in H1. done.
    + apply IH; [done| |].
      * cbn [StdSet.fresh forallb] in Hfresh.
        by apply andb_true_iff in Hfresh as [_ ?].
      * cbn [StdSet.find] in Hfind.
        by destruct (StdSet.equivalent Compare value m.2).
Qed.

Lemma well_formed_filter (keep : nat * value_type → bool) s :
  StdSet.well_formed Compare s = true →
  StdSet.well_formed Compare (List.filter keep s) = true.
Proof.
  induction s as [|m s IH]; [done|]. cbn [StdSet.well_formed List.filter].
  intros [Hhd Htl]%andb_true_iff. destruct (keep m); [|by apply IH].
  cbn [StdSet.well_formed]. rewrite IH, andb_true_r by done.
  rewrite forallb_forall in Hhd. apply forallb_forall.
  intros k [Hk _]%filter_In. by apply Hhd.
Qed.

Lemma insert_well_formed d a value (s : list (nat * value_type)) :
  StdSet.well_formed Compare s = true →
  StdSet.fresh a s = true →
  StdSet.well_formed Compare (StdSet.insert Compare d a value s).2 = true.
Proof.
  intros Hwf Hfresh.
  destruct (insert_cases d a value s) as [(p & _ & ->)|[Hf ->]]; [done|].
  by eapply well_formed_place.
Qed.

Lemma erase_well_formed it (s s' : list (nat * value_type)) :
  StdSet.well_formed Compare s = true →
  StdSet.erase it s = Some s' →
  StdSet.well_formed Compare s' = true.
Proof.
  intros Hwf. unfold StdSet.erase. destruct it as [| |a]; [done..|].
  destruct (StdSet.is_node (node a) s); [|done].
  intros [= <-]. by apply well_formed_filter.
Qed.

(** *** Under a strict total order *)

Section total.
Hypothesis Compare_irrefl : ∀ x, Compare x x = false.
Hypothesis Compare_total :
  ∀ x y, Compare x y = false → Compare y x = false → x = y.

Lemma equivalent_eq x y : equivalent x y = true ↔ x = y.
Proof.
  unfold StdSet.equivalent. rewrite andb_true_iff, !negb_true_iff. split.
  - intros [??]. by apply Compare_total.
  - intros ->. by rewrite Compare_irrefl.
Qed.

Lemma find_unique d value (s : list (nat * value_type)) a :
  unique_nodes s → (a, value) ∈ s → find d value s = node a.
Proof.
  intros Hun Hin.
  destruct (find_cases d value s) as [[_ Hall]|(m & Hm & He & ->)].
  - specialize (Hall _ Hin). simpl in Hall.
    assert (equivalent value value = true) by by apply equivalent_eq.
    congruence.
  - assert (m = (a, value)) as ->; [|done].
    apply Hun; [done..|]. right. simpl. by rewrite equivalent_sym.
Qed.

Lemma find_node_elem d value (s : list (nat * value_type)) a :
  find d value s = node a → (a, value) ∈ s.
Proof.
  intros Hf.
  destruct (find_cases d value s) as [[Hf' _]|(m & Hm & He & Hf')];
    [congruence|].
  apply equivalent_eq in He. rewrite Hf in Hf'. injection Hf' as ->.
  subst value. by destruct m.
Qed.

(** The node that [insert] returns holds [value]; the set after the
    insertion is the set before it and that node. *)
Lemma insert_spec d a value (s : list (nat * value_type)) :
  unique_nodes s → StdSet.fresh a s = true →
  ∃ id, (StdSet.insert Compare d a value s).1.1 = node id
        ∧ unique_nodes (StdSet.insert Compare d a value s).2
        ∧ (id, value) ∈ (StdSet.insert Compare d a value s).2
        ∧ (∀ n, n ∈ (StdSet.insert Compare d a value s).2
                ↔ n = (id, value) ∨ n ∈ s)
        ∧ (find d value s = node id ∨ id = a).
Proof.
  intros Hun Hfresh.
  destruct (insert_cases d a value s) as [(p & Hf & ->)|[Hf ->]];
    cbn [fst snd].
  - exists p. pose proof (find_node_elem _ _ _ _ Hf) as Hp.
    split_and!; [done..| |by left].
    intros n. split; [by right | by intros [->|?]].
  - exists a. split_and!; [done| | | |by right].
    + apply unique_nodes_place; [done|]. intros m Hm. split.
      * by eapply fresh_elem.
      * destruct (find_cases d value s) as [[_ Hall]|(k & _ & _ & Hk)];
          [by apply Hall | congruence].
    + apply elem_of_place. by left.
    + intros n. apply elem_of_place.
Qed.
End total.
End set_facts.

(** ** Facts about the notices and the two mutators *)

Section program_facts.
Context {value_type : Type}.
Variable Compare : value_type → value_type → bool.
Variable value_eq_iterator : value_type → pointer → bool.

#[local] Abbreviation World := (world value_type).

Lemma notify_domains notice vars (w : World) :
  domains (notify notice vars w) = domains w.
Proof.
  revert w. induction vars as [|x vars IH]; intros w; [done|].
  simpl. by rewrite IH.
Qed.

(** Every variable on the list gets the notice, once; no other variable is
    touched. *)
Lemma notify_variables notice vars (w : World) h :
  NoDup vars →
  variables (notify notice vars w) !! h
  = if decide (h ∈ vars) then notice <$> variables w !! h
    else variables w !! h.
Proof.
  intros Hnd. revert w.
  induction Hnd as [|x vars Hx Hnd IH]; intros w.
  - rewrite decide_False; [done | apply not_elem_of_nil].
  - change (notify notice (x :: vars) w)
      with (notify notice vars
              (mkWorld (domains w) (alter notice x (variables w)))).
    rewrite IH. cbn [variables].
    destruct (decide (h = x)) as [Heq|Hne].
    + subst h. rewrite lookup_alter_eq. rewrite decide_False by done.
      rewrite decide_True by by left. done.
    + rewrite lookup_alter_ne by done.
      destruct (decide (h ∈ vars)) as [Hin|Hnin].
      * rewrite decide_True by by right. done.
      * rewrite decide_False; [done|].
        by intros [?|?]%elem_of_cons.
Qed.

Lemma notify_subscribers notice (subscribers : gset nat) (w : World) h :
  variables (notify notice (elements subscribers) w) !! h
  = if decide (h ∈ subscribers) then notice <$> variables w !! h
    else variables w !! h.
Proof.
  rewrite notify_variables by apply NoDup_elements.
  destruct (decide (h ∈ subscribers)) as [Hin|Hnin].
  - rewrite decide_True; [done | by apply elem_of_elements].
  - rewrite decide_False; [done | by rewrite elem_of_elements].
Qed.

(** What [replaceAllowedValue] leaves behind when it finds [to_replace]:
    the set after insertion, less the node found; the subscribers after the
    replacement notice; everything else as it was. *)
Lemma replaceAllowedValue_found a this to_replace replacement (w : World)
    dom p :
  domains w !! this = Some dom →
  StdSet.find Compare this to_replace (m_allowed_values dom) = node p →
  let ins := StdSet.insert Compare this a replacement (m_allowed_values dom) in
  ∃ w',
    replaceAllowedValue Compare a this to_replace replacement w
    = Some (true, w')
    ∧ domains w'
      = <[this := mkDomain (List.filter (λ n, negb (Nat.eqb n.1 p)) ins.2)
                           (m_managed_variables dom)]> (domains w)
    ∧ ∀ h, variables w' !! h
           = if decide (h ∈ m_managed_variables dom)
             then DomainRestrictedVariable_replacementNotice (node p) ins.1.1
                    <$> variables w !! h
             else variables w !! h.
Proof.
  intros Hdom Hfind ins.
  destruct (find_node_in Compare _ _ _ _ Hfind) as (u & Hu & _).
  assert (Hnode : StdSet.is_node (node p) ins.2 = true).
  { eapply is_node_elem, insert_keeps, Hu. }
  destruct ins as [[first second] s1] eqn:Hins. cbn [fst snd] in *.
  eexists. split; [|split].
  - unfold replaceAllowedValue. rewrite Hdom. cbn [mbind option_bind].
    rewrite Hfind. rewrite decide_False by done.
    subst ins. rewrite Hins.
    unfold VariableDomain_replacementNotice, store_domain.
    cbn [domains variables].
    rewrite lookup_insert_eq.
    cbn [mbind option_bind m_allowed_values m_managed_variables].
    rewrite notify_domains. cbn [domains].
    rewrite lookup_insert_eq.
    cbn [mbind option_bind m_allowed_values m_managed_variables].
    unfold StdSet.erase. rewrite Hnode. cbn [mbind option_bind].
    reflexivity.
  - cbn [domains]. by rewrite insert_insert_eq.
  - intros h. cbn [variables]. by rewrite notify_subscribers.
Qed.

Lemma replaceAllowedValue_not_found a this to_replace replacement
    (w : World) dom :
  domains w !! this = Some dom →
  StdSet.find Compare this to_replace (m_allowed_values dom)
  = past_the_end this →
  replaceAllowedValue Compare a this to_replace replacement w
  = Some (false, w).
Proof.
  intros Hdom Hfind. unfold replaceAllowedValue.
  rewrite Hdom. cbn [mbind option_bind]. rewrite Hfind.
  by rewrite decide_True.
Qed.

(** [removeAllowedValue] when its test lets it through and the value is in
    the set. *)
Lemma removeAllowedValue_found this value (w : World) dom p :
  domains w !! this = Some dom →
  StdSet.find Compare this value (m_allowed_values dom) = node p →
  value_eq_iterator value (past_the_end this) = false →
  ∃ w',
    removeAllowedValue Compare value_eq_iterator this value w
    = Some (true, w')
    ∧ domains w'
      = <[this := mkDomain
                    (List.filter (λ n, negb (Nat.eqb n.1 p))
                                 (m_allowed_values dom))
                    (m_managed_variables dom)]> (domains w)
    ∧ ∀ h, variables w' !! h
           = if decide (h ∈ m_managed_variables dom)
             then DomainRestrictedVariable_deletionNotice (node p)
                    <$> variables w !! h
             else variables w !! h.
Proof.
  intros Hdom Hfind Htest.
  destruct (find_node_in Compare _ _ _ _ Hfind) as (u & Hu & _).
  pose proof (is_node_elem _ _ _ Hu) as Hnode.
  eexists. split; [|split].
  - unfold removeAllowedValue. rewrite Hdom. cbn [mbind option_bind].
    rewrite Htest, Hfind.
    unfold VariableDomain_deletionNotice. rewrite Hdom.
    cbn [mbind option_bind]. rewrite notify_domains, Hdom.
    cbn [mbind option_bind]. unfold StdSet.erase. rewrite Hnode.
    cbn [mbind option_bind]. reflexivity.
  - unfold store_domain. cbn [domains]. by rewrite notify_domains.
  - intros h. unfold store_domain. cbn [variables].
    by rewrite notify_subscribers.
Qed.

(** The test that guards [removeAllowedValue] is blind to the set. *)
Lemma removeAllowedValue_test_true this value (w : World) dom :
  domains w !! this = Some dom →
  value_eq_iterator value (past_the_end this) = true →
  removeAllowedValue Compare value_eq_iterator this value w
  = Some (false, w).
Proof.
  intros Hdom Htest. unfold removeAllowedValue.
  rewrite Hdom. cbn [mbind option_bind]. by rewrite Htest.
Qed.

Lemma removeAllowedValue_not_found this value (w : World) dom :
  domains w !! this = Some dom →
  StdSet.find Compare this value (m_allowed_values dom)
  = past_the_end this →
  value_eq_iterator value (past_the_end this) = false →
  removeAllowedValue Compare value_eq_iterator this value w = None.
Proof.
  intros Hdom Hfind Htest. unfold removeAllowedValue.
  rewrite Hdom. cbn [mbind option_bind]. rewrite Htest, Hfind.
  unfold VariableDomain_deletionNotice. rewrite Hdom.
  cbn [mbind option_bind]. rewrite notify_domains, Hdom. done.
Qed.

(** Whatever a mutator of the domain returns, the set it leaves behind is
    well formed if the set it found was, and the new node had an address
    of its own. *)
Lemma mutators_keep_well_formed a this value replacement (w : World) dom :
  domains w !! this = Some dom →
  StdSet.well_formed Compare (m_allowed_values dom) = true →
  StdSet.fresh a (m_allowed_values dom) = true →
  ∀ b w',
    addAllowedValue Compare a this value w = Some (b, w')
    ∨ removeAllowedValue Compare value_eq_iterator this value w = Some (b, w')
    ∨ replaceAllowedValue Compare a this value replacement w = Some (b, w') →
    ∃ dom', domains w' !! this = Some dom'
            ∧ StdSet.well_formed Compare (m_allowed_values dom') = true.
Proof.
  intros Hdom Hwf Hfresh b w' [Hrun|[Hrun|Hrun]].
  - unfold addAllowedValue in Hrun. rewrite Hdom in Hrun.
    cbn [mbind option_bind] in Hrun.
    pose proof (insert_well_formed Compare this a value _ Hwf Hfresh) as Hwf1.
    destruct (StdSet.insert Compare this a value (m_allowed_values dom))
      as [[first second] s1].
    injection Hrun as _ <-. eexists. unfold store_domain. cbn [domains].
    by rewrite lookup_insert_eq.
  - destruct (value_eq_iterator value (past_the_end this)) eqn:Htest.
    { erewrite removeAllowedValue_test_true in Hrun by done.
      injection Hrun as _ <-. by exists dom. }
    destruct (find_cases Compare this value (m_allowed_values dom))
      as [[Hf _]|(n & _ & _ & Hf)].
    { by erewrite removeAllowedValue_not_found in Hrun. }
    destruct (removeAllowedValue_found this value w dom n.1 Hdom Hf Htest)
      as (w1 & Hrun1 & Hdoms & _).
    rewrite Hrun1 in Hrun. injection Hrun as _ <-.
    eexists. rewrite Hdoms, lookup_insert_eq. split; [done|].
    by apply well_formed_filter.
  - destruct (find_cases Compare this value (m_allowed_values dom))
      as [[Hf _]|(n & _ & _ & Hf)].
    { erewrite replaceAllowedValue_not_found in Hrun by done.
      injection Hrun as _ <-. by exists dom. }
    destruct (replaceAllowedValue_found a this value replacement w dom n.1
                Hdom Hf) as (w1 & Hrun1 & Hdoms & _).
    rewrite Hrun1 in Hrun. injection Hrun as _ <-.
    eexists. rewrite Hdoms, lookup_insert_eq. split; [done|].
    by apply well_formed_filter, insert_well_formed.
Qed.
End program_facts.

(** ** Replacement and removal under a strict total order *)

Section replacement.
Context {value_type : Type}.
Variable Compare : value_type → value_type → bool.
Hypothesis Compare_irrefl : ∀ x, Compare x x = false.
Hypothesis Compare_total :
  ∀ x y, Compare x y = false → Compare y x = false → x = y.

#[local] Abbreviation World := (world value_type).
#[local] Abbreviation find := (StdSet.find Compare).

Lemma isAllowedValue_true this value (w : World) dom :
  domains w !! this = Some dom →
  isAllowedValue Compare this value w = Some true →
  ∃ id, find this value (m_allowed_values dom) = node id
        ∧ (id, value) ∈ m_allowed_values dom.
Proof.
  intros Hdom. unfold isAllowedValue. rewrite Hdom. cbn [mbind option_bind].
  intros [= Hfound%bool_decide_eq_true].
  destruct (find_cases Compare this value (m_allowed_values dom))
    as [[Hf _]|(n & Hn & He & Hf)]; [done|].
  exists n.1. split; [done|]. by eapply (find_node_elem Compare).
Qed.

Lemma isAllowedValue_false this value (w : World) dom :
  domains w !! this = Some dom →
  isAllowedValue Compare this value w = Some false →
  find this value (m_allowed_values dom) = past_the_end this.
Proof.
  intros Hdom. unfold isAllowedValue. rewrite Hdom. cbn [mbind option_bind].
  intros [= Hfound%bool_decide_eq_false]. by apply dec_stable.
Qed.

Lemma isAllowedValue_elem this value (w : World) dom id :
  domains w !! this = Some dom →
  (id, value) ∈ m_allowed_values dom →
  isAllowedValue Compare this value w = Some true.
Proof.
  intros Hdom Hin. unfold isAllowedValue. rewrite Hdom.
  cbn [mbind option_bind]. f_equal. apply bool_decide_eq_true.
  eapply find_elem; [done|]. by apply (equivalent_eq Compare).
Qed.

Lemma isAllowedValue_no_elem this value (w : World) dom :
  domains w !! this = Some dom →
  (∀ n, n ∈ m_allowed_values dom → n.2 ≠ value) →
  isAllowedValue Compare this value w = Some false.
Proof.
  intros Hdom Hno. unfold isAllowedValue. rewrite Hdom.
  cbn [mbind option_bind]. f_equal. apply bool_decide_eq_false.
  intros Hfound. apply Hfound.
  destruct (find_cases Compare this value (m_allowed_values dom))
    as [[Hf _]|(n & Hn & He & Hf)]; [done|].
  apply (equivalent_eq Compare) in He; [|done..]. by destruct (Hno n Hn).
Qed.

(** C2. Replacing a value that is in the domain by a different value
    returns true, and when it returns no subscriber points at the old
    node any more: every subscriber that did now points at the node that
    holds the new value, has a value, and that value is the new one; the
    domain holds the new value and not the old one; the registry is as it
    was.  Replacing a value that is not in the domain returns false and
    changes nothing. *)
Theorem replaceAllowedValue_atomic a this old_value new_value
    (w : World) dom :
  domains w !! this = Some dom →
  StdSet.well_formed Compare (m_allowed_values dom) = true →
  StdSet.fresh a (m_allowed_values dom) = true →
  old_value ≠ new_value →
  (isAllowedValue Compare this old_value w = Some true →
   ∃ w' dom' old_id new_id,
     replaceAllowedValue Compare a this old_value new_value w
     = Some (true, w')
     ∧ find this old_value (m_allowed_values dom) = node old_id
     ∧ domains w' !! this = Some dom'
     ∧ find this new_value (m_allowed_values dom') = node new_id
     ∧ m_managed_variables dom' = m_managed_variables dom
     ∧ isAllowedValue Compare this new_value w' = Some true
     ∧ isAllowedValue Compare this old_value w' = Some false
     ∧ ∀ h var,
         h ∈ m_managed_variables dom →
         variables w !! h = Some var →
         ∃ var',
           variables w' !! h = Some var'
           ∧ m_value var' ≠ node old_id
           ∧ (m_value var = node old_id →
              m_value var' = node new_id
              ∧ has_value var' = true
              ∧ (m_domain var = this →
                 operator_value_type h w' = Some new_value)))
  ∧ (isAllowedValue Compare this old_value w = Some false →
     replaceAllowedValue Compare a this old_value new_value w
     = Some (false, w)).
Proof.
  intros Hdom Hwf%well_formed_unique Hfresh Hne. split; cycle 1.
  { intros Habsent. eapply replaceAllowedValue_not_found; [done|].
    by eapply isAllowedValue_false. }
  intros (old_id & Hfind & Hold)%(isAllowedValue_true _ _ _ _ Hdom).
  destruct (replaceAllowedValue_found Compare a this old_value new_value
              w dom old_id Hdom Hfind) as (w' & Hrun & Hdoms & Hvars).
  destruct (insert_spec Compare Compare_irrefl Compare_total this a
              new_value _ Hwf Hfresh)
    as (new_id & Hfirst & Hun1 & Hnew1 & Hmem1 & Horigin).
  rewrite Hfirst in Hvars.
  set (s' := List.filter _ _) in Hdoms.
  assert (Hids : new_id ≠ old_id).
  { intros ->. destruct Horigin as [Hf| ->].
    - apply (find_node_elem Compare) in Hf; [|done..].
      assert ((old_id, new_value) = (old_id, old_value)) as [= ?];
        [|done]. apply Hwf; [done..|by left].
    - by apply (fresh_elem _ _ _ Hfresh Hold). }
  assert (Hmem' : ∀ n, n ∈ s' ↔ (n = (new_id, new_value)
                                  ∨ n ∈ m_allowed_values dom)
                                 ∧ n.1 ≠ old_id).
  { intros n. unfold s'. by rewrite elem_of_erase_filter, Hmem1. }
  assert (Hun' : StdSet.unique_nodes Compare s').
  { eapply unique_nodes_subseteq; [exact Hun1|].
    intros n Hn. apply Hmem1. by apply Hmem' in Hn as [? _]. }
  assert (Hnew' : (new_id, new_value) ∈ s').
  { apply Hmem'. split; [by left | done]. }
  assert (Hdom' : domains w' !! this
                  = Some (mkDomain s' (m_managed_variables dom))).
  { by rewrite Hdoms, lookup_insert_eq. }
  eexists w', _, old_id, new_id.
  split_and!; [done|done|exact Hdom'| | | | |].
  - by apply (find_unique Compare).
  - done.
  - by eapply isAllowedValue_elem.
  - eapply isAllowedValue_no_elem; [done|]. cbn [m_allowed_values].
    intros n [[->|Hn] Hn1]%Hmem' Hval; [done|]. apply Hn1.
    assert (n = (old_id, old_value)) as ->; [|done].
    apply Hwf; [done..|]. right. rewrite Hval. by apply (equivalent_eq Compare).
  - intros h var Hh Hvar.
    rewrite Hvars, decide_True, Hvar by done. eexists. split; [done|].
    unfold DomainRestrictedVariable_replacementNotice.
    case_decide as Hpoints; cbn [m_value m_domain].
    + split; [congruence|]. intros _. split_and!; [done..|].
      intros Hbound. unfold operator_value_type.
      rewrite Hvars, decide_True, Hvar by done. cbn [fmap option_fmap option_map mbind option_bind].
      unfold DomainRestrictedVariable_replacementNotice.
      rewrite decide_True by done. cbn [m_value m_domain].
      rewrite Hbound, Hdom'. cbn [mbind option_bind m_allowed_values].
      by apply (deref_unique Compare).
    + split; [done | congruence].
Qed.

Lemma replacementNotice_same p var :
  DomainRestrictedVariable_replacementNotice p p var = var.
Proof.
  unfold DomainRestrictedVariable_replacementNotice.
  case_decide as Hp; [|done]. destruct var; simpl in *. by subst.
Qed.

Lemma is_node_erased id (s : list (nat * value_type)) :
  StdSet.is_node (node id) (List.filter (λ n, negb (Nat.eqb n.1 id)) s)
  = false.
Proof.
  apply not_true_is_false. cbn [StdSet.is_node].
  intros (n & Hn & Heq)%existsb_exists.
  apply list_elem_of_In, elem_of_erase_filter in Hn as [_ Hn].
  by apply Nat.eqb_eq in Heq.
Qed.

(** C10. Replacing a value of the domain by itself returns true and
    erases the value: the insertion meets the element itself, the notice
    maps its node onto itself, and the node is then erased.  A variable
    that pointed at it still does, and still reports a value. *)
Theorem replaceAllowedValue_self a this x (w : World) dom :
  domains w !! this = Some dom →
  StdSet.well_formed Compare (m_allowed_values dom) = true →
  isAllowedValue Compare this x w = Some true →
  ∃ w' dom' id,
    find this x (m_allowed_values dom) = node id
    ∧ (StdSet.insert Compare this a x (m_allowed_values dom)).1.1 = node id
    ∧ replaceAllowedValue Compare a this x x w = Some (true, w')
    ∧ domains w' !! this = Some dom'
    ∧ isAllowedValue Compare this x w' = Some false
    ∧ StdSet.is_node (node id) (m_allowed_values dom') = false
    ∧ ∀ h var,
        variables w !! h = Some var →
        m_value var = node id →
        variables w' !! h = Some var ∧ has_value var = true.
Proof.
  intros Hdom Hwf%well_formed_unique
    (id & Hfind & Hx)%(isAllowedValue_true _ _ _ _ Hdom).
  destruct (replaceAllowedValue_found Compare a this x x
              w dom id Hdom Hfind) as (w' & Hrun & Hdoms & Hvars).
  assert (Hins : StdSet.insert Compare this a x (m_allowed_values dom)
                 = (node id, false, m_allowed_values dom)).
  { destruct (insert_cases Compare this a x (m_allowed_values dom))
      as [(p & Hf & ->)|[Hf _]]; congruence. }
  rewrite Hins in Hdoms, Hvars. cbn [fst snd] in *.
  eexists w', _, id. split_and!; [done| by rewrite Hins |done| | | |].
  - by rewrite Hdoms, lookup_insert_eq.
  - eapply isAllowedValue_no_elem; [by rewrite Hdoms, lookup_insert_eq|].
    cbn [m_allowed_values].
    intros n [Hn Hn1]%elem_of_erase_filter Hval. apply Hn1.
    assert (n = (id, x)) as ->; [|done].
    apply Hwf; [done..|]. right. rewrite Hval.
    by apply (equivalent_eq Compare).
  - apply is_node_erased.
  - intros h var Hvar Hpoints. split.
    + rewrite Hvars, Hvar. cbn [fmap option_fmap option_map].
      rewrite replacementNotice_same. by case_decide.
    + unfold has_value. rewrite Hpoints. done.
Qed.

(** X25. Replacing a value of the domain by another value that is already
    in the domain allocates nothing: the set afterwards is the set before
    less the node replaced, the node of the other value is the one it was,
    and the subscribers that pointed at the replaced node point at that
    one and resolve to the value stored there. *)
Theorem replaceAllowedValue_onto_existing a this old_value new_value
    (w : World) dom :
  domains w !! this = Some dom →
  StdSet.well_formed Compare (m_allowed_values dom) = true →
  old_value ≠ new_value →
  isAllowedValue Compare this old_value w = Some true →
  isAllowedValue Compare this new_value w = Some true →
  ∃ w' old_id new_id,
    find this old_value (m_allowed_values dom) = node old_id
    ∧ find this new_value (m_allowed_values dom) = node new_id
    ∧ replaceAllowedValue Compare a this old_value new_value w
      = Some (true, w')
    ∧ domains w' !! this
      = Some (mkDomain
                (List.filter (λ n, negb (Nat.eqb n.1 old_id))
                             (m_allowed_values dom))
                (m_managed_variables dom))
    ∧ find this new_value
           (List.filter (λ n, negb (Nat.eqb n.1 old_id))
                        (m_allowed_values dom)) = node new_id
    ∧ ∀ h var,
        h ∈ m_managed_variables dom →
        variables w !! h = Some var →
        m_domain var = this →
        m_value var = node old_id →
        variables w' !! h = Some (mkVariable this (node new_id))
        ∧ operator_value_type h w' = Some new_value.
Proof.
  intros Hdom Hwf%well_formed_unique Hne
    (old_id & Hfind & Hold)%(isAllowedValue_true _ _ _ _ Hdom)
    (new_id & Hfindn & Hnew)%(isAllowedValue_true _ _ _ _ Hdom).
  destruct (replaceAllowedValue_found Compare a this old_value new_value
              w dom old_id Hdom Hfind) as (w' & Hrun & Hdoms & Hvars).
  assert (Hins : StdSet.insert Compare this a new_value (m_allowed_values dom)
                 = (node new_id, false, m_allowed_values dom)).
  { destruct (insert_cases Compare this a new_value (m_allowed_values dom))
      as [(p & Hf & ->)|[Hf _]]; congruence. }
  rewrite Hins in Hdoms, Hvars. cbn [fst snd] in *.
  set (s' := List.filter _ _) in *.
  assert (Hids : new_id ≠ old_id).
  { intros ->.
    assert ((old_id, new_value) = (old_id, old_value)) as [= ?]; [|done].
    apply Hwf; [done..|by left]. }
  assert (Hun' : StdSet.unique_nodes Compare s').
  { eapply unique_nodes_subseteq; [exact Hwf|].
    by intros n [? _]%elem_of_erase_filter. }
  assert (Hnew' : (new_id, new_value) ∈ s').
  { by apply elem_of_erase_filter. }
  assert (Hdom' : domains w' !! this
                  = Some (mkDomain s' (m_managed_variables dom))).
  { by rewrite Hdoms, lookup_insert_eq. }
  exists w', old_id, new_id. split_and!; [done..| |].
  - by apply (find_unique Compare).
  - intros h var Hh Hvar Hbound Hpoints.
    assert (Hvar' : variables w' !! h = Some (mkVariable this (node new_id))).
    { rewrite Hvars, decide_True, Hvar by done.
      unfold DomainRestrictedVariable_replacementNotice.
      cbn [fmap option_fmap option_map].
      rewrite decide_True by done. by rewrite Hbound. }
    split; [done|]. unfold operator_value_type. rewrite Hvar'.
    cbn [mbind option_bind m_domain m_value]. rewrite Hdom'.
    cbn [mbind option_bind m_allowed_values].
    by apply (deref_unique Compare).
Qed.

(** The invariant survives a replacement by a different value: if every
    subscriber of the domain was empty or pointed into the set, so it is
    after the call. *)
Lemma replaceAllowedValue_keeps_subscribers_consistent a this old_value
    new_value (w : World) dom :
  domains w !! this = Some dom →
  StdSet.well_formed Compare (m_allowed_values dom) = true →
  StdSet.fresh a (m_allowed_values dom) = true →
  old_value ≠ new_value →
  (∀ h, h ∈ m_managed_variables dom → subscriber_consistent dom w h = true) →
  ∀ b w',
    replaceAllowedValue Compare a this old_value new_value w = Some (b, w') →
    ∃ dom',
      domains w' !! this = Some dom'
      ∧ m_managed_variables dom' = m_managed_variables dom
      ∧ ∀ h, h ∈ m_managed_variables dom' →
             subscriber_consistent dom' w' h = true.
Proof.
  intros Hdom Hwf Hfresh Hne Hcons b w' Hrun.
  destruct (find_cases Compare this old_value (m_allowed_values dom))
    as [[Hf _]|(n & Hn & He & Hf)].
  { erewrite replaceAllowedValue_not_found in Hrun by done.
    injection Hrun as _ <-. by exists dom. }
  destruct (replaceAllowedValue_found Compare a this old_value new_value
              w dom n.1 Hdom Hf) as (w1 & Hrun1 & Hdoms & Hvars).
  rewrite Hrun1 in Hrun. injection Hrun as _ <-.
  destruct (insert_spec Compare Compare_irrefl Compare_total this a
              new_value _ (well_formed_unique _ _ Hwf) Hfresh)
    as (new_id & Hfirst & _ & Hnew1 & Hmem1 & Horigin).
  rewrite Hfirst in Hvars.
  assert (Hids : new_id ≠ n.1).
  { intros Heq. destruct Horigin as [Hfn| ->].
    - apply (find_node_elem Compare) in Hfn, Hf; [|done..].
      rewrite Heq in Hfn.
      assert ((n.1, new_value) = (n.1, old_value)) as [= ?]; [|done].
      apply (well_formed_unique _ _ Hwf); [done..|by left].
    - by apply (fresh_elem _ _ _ Hfresh Hn). }
  eexists. rewrite Hdoms, lookup_insert_eq. split_and!; [done..|].
  cbn [m_managed_variables m_allowed_values]. intros h Hh.
  specialize (Hcons h Hh). unfold subscriber_consistent in *.
  rewrite Hvars, decide_True by done.
  destruct (variables w !! h) as [var|]; [|done].
  cbn [fmap option_fmap option_map].
  unfold DomainRestrictedVariable_replacementNotice.
  case_decide as Hpoints; cbn [m_value].
  - apply orb_true_iff. right. eapply is_node_elem.
    apply elem_of_erase_filter. split; [exact Hnew1 | done].
  - apply orb_true_iff in Hcons as [Hempty|Hnode]; apply orb_true_iff;
      [by left|right].
    apply is_node_inv in Hnode as (p & u & Hp & Hu). rewrite Hp in *.
    eapply is_node_elem, elem_of_erase_filter. split.
    + apply Hmem1. right. exact Hu.
    + cbn [fst]. congruence.
Qed.

(** So it does a removal, whenever the removal returns. *)
Lemma removeAllowedValue_keeps_subscribers_consistent value_eq_iterator
    this value (w : World) dom :
  domains w !! this = Some dom →
  (∀ h, h ∈ m_managed_variables dom → subscriber_consistent dom w h = true) →
  ∀ b w',
    removeAllowedValue Compare value_eq_iterator this value w
    = Some (b, w') →
    ∃ dom',
      domains w' !! this = Some dom'
      ∧ m_managed_variables dom' = m_managed_variables dom
      ∧ ∀ h, h ∈ m_managed_variables dom' →
             subscriber_consistent dom' w' h = true.
Proof.
  intros Hdom Hcons b w' Hrun.
  destruct (value_eq_iterator value (past_the_end this)) eqn:Htest.
  { erewrite removeAllowedValue_test_true in Hrun by done.
    injection Hrun as _ <-. by exists dom. }
  destruct (find_cases Compare this value (m_allowed_values dom))
    as [[Hf _]|(n & Hn & He & Hf)].
  { by erewrite removeAllowedValue_not_found in Hrun. }
  destruct (removeAllowedValue_found Compare value_eq_iterator this value
              w dom n.1 Hdom Hf Htest) as (w1 & Hrun1 & Hdoms & Hvars).
  rewrite Hrun1 in Hrun. injection Hrun as _ <-.
  eexists. rewrite Hdoms, lookup_insert_eq. split_and!; [done..|].
  cbn [m_managed_variables m_allowed_values]. intros h Hh.
  specialize (Hcons h Hh). unfold subscriber_consistent in *.
  rewrite Hvars, decide_True by done.
  destruct (variables w !! h) as [var|]; [|done].
  cbn [fmap option_fmap option_map].
  unfold DomainRestrictedVariable_deletionNotice.
  case_decide as Hpoints; [done|].
  apply orb_true_iff in Hcons as [Hempty|Hnode]; apply orb_true_iff;
    [by left|right].
  apply is_node_inv in Hnode as (p & u & Hp & Hu). rewrite Hp in *.
  eapply is_node_elem, elem_of_erase_filter. split; [exact Hu|].
  cbn [fst]. congruence.
Qed.

(** C8. A variable that points at the node of some other value than the
    one removed or replaced is left as it was, whatever the outcome of
    the call: same record (so same slot, same emptiness) and same
    resolved value.  The replacement always returns; the removal returns
    whenever the value is in the domain. *)
Theorem unrelated_variable_untouched a this value replacement
    (w : World) dom h var id u :
  domains w !! this = Some dom →
  StdSet.well_formed Compare (m_allowed_values dom) = true →
  StdSet.fresh a (m_allowed_values dom) = true →
  variables w !! h = Some var →
  m_domain var = this →
  m_value var = node id →
  (id, u) ∈ m_allowed_values dom →
  u ≠ value →
  operator_value_type h w = Some u
  ∧ (∀ value_eq_iterator b w',
       removeAllowedValue Compare value_eq_iterator this value w
       = Some (b, w') →
       variables w' !! h = variables w !! h
       ∧ operator_value_type h w' = operator_value_type h w)
  ∧ (∀ value_eq_iterator,
       isAllowedValue Compare this value w = Some true →
       is_Some (removeAllowedValue Compare value_eq_iterator this value w))
  ∧ (∃ b w',
       replaceAllowedValue Compare a this value replacement w
       = Some (b, w')
       ∧ variables w' !! h = variables w !! h
       ∧ operator_value_type h w' = operator_value_type h w).
Proof.
  intros Hdom Hwf%well_formed_unique Hfresh Hvar Hbound Hpoints Hu Hne.
  assert (Hbefore : operator_value_type h w = Some u).
  { unfold operator_value_type. rewrite Hvar. cbn [mbind option_bind].
    rewrite Hbound, Hdom. cbn [mbind option_bind]. rewrite Hpoints.
    by apply (deref_unique Compare). }
  assert (Hother : ∀ p, find this value (m_allowed_values dom) = node p →
                        p ≠ id).
  { intros p Hf%(find_node_elem Compare) ->; [|done..].
    assert ((id, u) = (id, value)) as [= ?]; [|done].
    apply Hwf; [done..|by left]. }
  assert (Hafter : ∀ (w' : World) p s1 notice,
    (∀ n, n ∈ m_allowed_values dom → n ∈ s1) →
    StdSet.unique_nodes Compare s1 →
    p ≠ id →
    domains w' !! this
    = Some (mkDomain (List.filter (λ n, negb (Nat.eqb n.1 p)) s1)
                     (m_managed_variables dom)) →
    (∀ k, variables w' !! k
          = if decide (k ∈ m_managed_variables dom)
            then notice <$> variables w !! k else variables w !! k) →
    notice var = var →
    variables w' !! h = variables w !! h
    ∧ operator_value_type h w' = operator_value_type h w).
  { intros w' p s1 notice Hsup Hun1 Hp Hdom' Hvars Hnotice.
    assert (Hvar' : variables w' !! h = variables w !! h).
    { rewrite Hvars, Hvar. cbn [fmap option_fmap option_map].
      rewrite Hnotice. by case_decide. }
    split; [done|]. rewrite Hbefore.
    unfold operator_value_type. rewrite Hvar', Hvar.
    cbn [mbind option_bind]. rewrite Hbound, Hdom'.
    cbn [mbind option_bind m_allowed_values]. rewrite Hpoints.
    apply (deref_unique Compare).
    - eapply unique_nodes_subseteq; [exact Hun1|].
      by intros n [? _]%elem_of_erase_filter.
    - apply elem_of_erase_filter. split; [by apply Hsup | done]. }
  split_and!; [done| | |].
  - intros test b w' Hrun.
    destruct (test value (past_the_end this)) eqn:Htest.
    { erewrite removeAllowedValue_test_true in Hrun by done.
      by injection Hrun as _ <-. }
    destruct (find_cases Compare this value (m_allowed_values dom))
      as [[Hf _]|(n & _ & _ & Hf)].
    { by erewrite removeAllowedValue_not_found in Hrun. }
    destruct (removeAllowedValue_found Compare test this value w dom n.1
                Hdom Hf Htest) as (w1 & Hrun1 & Hdoms & Hvars).
    rewrite Hrun1 in Hrun. injection Hrun as _ <-.
    eapply (Hafter w1 n.1 (m_allowed_values dom)); [done|done|
      by apply Hother|by rewrite Hdoms, lookup_insert_eq|exact Hvars|].
    unfold DomainRestrictedVariable_deletionNotice.
    rewrite decide_False; [done|]. rewrite Hpoints. intros [= ?].
    by eapply Hother.
  - intros test (p & Hf & _)%(isAllowedValue_true _ _ _ _ Hdom).
    destruct (test value (past_the_end this)) eqn:Htest.
    { by erewrite removeAllowedValue_test_true. }
    destruct (removeAllowedValue_found Compare test this value w dom p
                Hdom Hf Htest) as (w1 & -> & _). done.
  - destruct (find_cases Compare this value (m_allowed_values dom))
      as [[Hf _]|(n & _ & _ & Hf)].
    { exists false, w. split; [|done].
      by eapply replaceAllowedValue_not_found. }
    destruct (replaceAllowedValue_found Compare a this value replacement
                w dom n.1 Hdom Hf) as (w1 & Hrun1 & Hdoms & Hvars).
    destruct (insert_spec Compare Compare_irrefl Compare_total this a
                replacement _ Hwf Hfresh)
      as (new_id & Hfirst & Hun1 & Hnew1 & Hmem1 & Horigin).
    exists true, w1. split; [done|].
    eapply (Hafter w1 n.1 _); [|exact Hun1|by apply Hother|
      by rewrite Hdoms, lookup_insert_eq|exact Hvars|].
    + intros k Hk. apply Hmem1. by right.
    + unfold DomainRestrictedVariable_replacementNotice.
      rewrite decide_False; [done|]. rewrite Hpoints. intros [= ?].
      by eapply Hother.
Qed.
End replacement.

(** ** Construction, moves and teardown *)

Section lifecycle.
Context {value_type : Type}.
Variable Compare : value_type → value_type → bool.

#[local] Abbreviation World := (world value_type).

Lemma variable_eta (o : DomainRestrictedVariable) :
  mkVariable (m_domain o) (m_value o) = o.
Proof. by destruct o. Qed.

(** Once the destination holds [o] and is in the registry, and the source
    is empty and out of it, the move has done its work. *)
Lemma transferred_intro this other o (w' : World) s subscribers :
  this ≠ other →
  variables w' !! this = Some o →
  variables w' !! other = Some (mkVariable (m_domain o) nullptr) →
  domains w' !! (m_domain o) = Some (mkDomain s subscribers) →
  other ∉ subscribers →
  this ∈ subscribers →
  transferred this other o w'.
Proof.
  intros Hne Hthis Hother Hdom Hout Hin. split_and!; [done| | | |].
  - by eexists.
  - eexists. by split_and!.
  - intros p. eexists. split.
    + unfold VariableDomain_deletionNotice. by rewrite Hdom.
    + cbn [m_managed_variables].
      by rewrite notify_subscribers, decide_True, Hthis.
  - intros p q. eexists. split.
    + unfold VariableDomain_replacementNotice. by rewrite Hdom.
    + cbn [m_managed_variables].
      by rewrite notify_subscribers, decide_True, Hthis.
Qed.

(** C6 (what the code does). Move construction from [other] into a new
    object [this] returns, and leaves the destination holding the slot and
    the domain of the source, the source empty and out of the registry of
    its domain, and the destination in that registry, where the notices
    reach it.  The statements of move assignment do the same between two
    variables that are alive; but the operator has no [return] statement,
    and no move assignment has a result. *)
Theorem move_transfers this other (w : World) o dom :
  variables w !! other = Some o →
  domains w !! (m_domain o) = Some dom →
  this ≠ other →
  (variables w !! this = None →
   ∃ w', DomainRestrictedVariable_ctor_move this other w = Some w'
         ∧ transferred this other o w')
  ∧ (∀ var dom0,
       variables w !! this = Some var →
       domains w !! (m_domain var) = Some dom0 →
       ∃ w', operator_assign_move_statements this other w = Some w'
             ∧ transferred this other o w')
  ∧ operator_assign_move this other w = None.
Proof.
  intros Ho Hdom Hne. split_and!.
  - intros Hnew. eexists. split.
    + unfold DomainRestrictedVariable_ctor_move, set_m_value, get_m_domain,
        unsubscribeVariable, subscribeVariable, store_variable, store_domain.
      rewrite Ho. cbn -[union difference]. simplify_map_eq. reflexivity.
    + eapply transferred_intro; cbn [variables domains];
        [done|simplify_map_eq; by rewrite variable_eta
        |by simplify_map_eq|by simplify_map_eq|set_solver..].
  - intros var dom0 Hvar Hdom0.
    assert (Hrun : ∃ subscribers,
      (other ∉ subscribers) ∧ this ∈ subscribers
      ∧ operator_assign_move_statements this other w
        = Some (mkWorld
                  (<[m_domain o := mkDomain (m_allowed_values dom) subscribers]>
                     (<[m_domain var :=
                          mkDomain (m_allowed_values dom0)
                                   (m_managed_variables dom0 ∖ {[this]})]>
                        (domains w)))
                  (<[other := mkVariable (m_domain o) nullptr]>
                     (<[this := o]> (variables w))))).
    { unfold operator_assign_move_statements, set_m_value, set_m_domain,
        get_m_domain, get_m_value, unsubscribeVariable, subscribeVariable,
        store_variable, store_domain.
      rewrite Hvar. cbn -[union difference]. rewrite Hdom0.
      cbn -[union difference]. simplify_map_eq.
      destruct (decide (m_domain var = m_domain o)) as [Heq|Hdiff].
      - rewrite Heq in *. simplify_map_eq.
        eexists. split_and!; cycle 2.
        { do 2 f_equal; rewrite !insert_insert_eq, ?variable_eta;
            reflexivity. }
        all: set_solver.
      - simplify_map_eq.
        eexists. split_and!; cycle 2.
        { do 2 f_equal; rewrite !insert_insert_eq, ?variable_eta;
            reflexivity. }
        all: set_solver. }
    destruct Hrun as (subscribers & Hout & Hin & Hrun).
    eexists. split; [exact Hrun|].
    eapply transferred_intro; cbn [variables domains];
      [done|by simplify_map_eq|by simplify_map_eq
      |by simplify_map_eq|done..].
  - unfold operator_assign_move.
    by destruct (operator_assign_move_statements this other w).
Qed.

(** C7 (what the code does). A value that is not in the domain leaves the
    variable, constructed from it or assigned it, subscribed and bound to
    the same domain, but pointing at the end of the set: [find] returns
    [end()] on a miss, [has_value] looks for [nullptr], and so the
    variable reports a value.  The assignment, on top of that, has no
    [return] statement and so no result. *)
Theorem lookup_miss_reports_a_value this domain value (w : World) dom :
  domains w !! domain = Some dom →
  isAllowedValue Compare domain value w = Some false →
  (∃ w' dom',
     DomainRestrictedVariable_ctor_value Compare this domain value w
     = Some w'
     ∧ variables w' !! this
       = Some (mkVariable domain (past_the_end domain))
     ∧ domains w' !! domain = Some dom'
     ∧ this ∈ m_managed_variables dom')
  ∧ (∀ var,
       variables w !! this = Some var →
       m_domain var = domain →
       ∃ w',
         operator_assign_value_statements Compare this value w = Some w'
         ∧ variables w' !! this
           = Some (mkVariable domain (past_the_end domain))
         ∧ domains w' = domains w)
  ∧ has_value (mkVariable domain (past_the_end domain)) = true
  ∧ operator_assign_value Compare this value w = None.
Proof.
  intros Hdom Hmiss%(isAllowedValue_false _ _ _ _ _ Hdom).
  split_and!; [| |done|]; cycle 2.
  { unfold operator_assign_value.
    by destruct (operator_assign_value_statements Compare this value w). }
  - eexists _, _. split_and!.
    + unfold DomainRestrictedVariable_ctor_value, subscribeVariable,
        store_variable, store_domain.
      rewrite Hdom. cbn -[union]. rewrite Hdom, Hmiss. reflexivity.
    + cbn [variables]. by simplify_map_eq.
    + cbn [domains]. by simplify_map_eq.
    + set_solver.
  - intros var Hvar Hbound. eexists. split_and!.
    + unfold operator_assign_value_statements, get_m_domain, set_m_value,
        store_variable.
      rewrite Hvar. cbn. rewrite Hbound, Hdom. cbn. rewrite Hmiss.
      reflexivity.
    + cbn [variables]. by simplify_map_eq.
    + done.
Qed.

(** *** Destructors *)

Lemma DomainRestrictedVariable_dtor_inv h (w w' : World) :
  DomainRestrictedVariable_dtor h w = Some w' →
  ∃ var dom,
    variables w !! h = Some var
    ∧ domains w !! (m_domain var) = Some dom
    ∧ w' = mkWorld
             (<[m_domain var :=
                  mkDomain (m_allowed_values dom)
                           (m_managed_variables dom ∖ {[h]})]> (domains w))
             (delete h (variables w)).
Proof.
  unfold DomainRestrictedVariable_dtor, get_m_domain, unsubscribeVariable,
    store_domain.
  destruct (variables w !! h) as [var|] eqn:Hvar; [|done].
  cbn -[difference].
  destruct (domains w !! (m_domain var)) as [dom|] eqn:Hdom; [|done].
  cbn -[difference]. intros [= <-]. by exists var, dom.
Qed.

Lemma DomainRestrictedVariable_dtor_run h (w : World) var dom :
  variables w !! h = Some var →
  domains w !! (m_domain var) = Some dom →
  DomainRestrictedVariable_dtor h w
  = Some (mkWorld
            (<[m_domain var :=
                 mkDomain (m_allowed_values dom)
                          (m_managed_variables dom ∖ {[h]})]> (domains w))
            (delete h (variables w))).
Proof.
  intros Hvar Hdom.
  unfold DomainRestrictedVariable_dtor, get_m_domain, unsubscribeVariable,
    store_domain.
  rewrite Hvar. cbn -[difference]. by rewrite Hdom.
Qed.

(** Destroying variables that are alive, each once, with their domains
    alive: every destructor returns. *)
Lemma destroy_variables_run hs (w : World) :
  NoDup hs →
  (∀ h, h ∈ hs → ∃ var, variables w !! h = Some var
                        ∧ is_Some (domains w !! (m_domain var))) →
  is_Some (destroy_variables hs w).
Proof.
  intros Hnd. revert w.
  induction Hnd as [|h hs Hh Hnd IH]; intros w Hlive; [by eexists|].
  destruct (Hlive h) as (var & Hvar & dom & Hdom); [by left|].
  cbn [destroy_variables].
  rewrite (DomainRestrictedVariable_dtor_run _ _ _ _ Hvar Hdom).
  cbn [mbind option_bind]. apply IH. intros k Hk.
  destruct (Hlive k) as (vark & Hvark & domk & Hdomk); [by right|].
  exists vark. cbn [variables domains]. split.
  - rewrite lookup_delete_ne; [done|]. by intros ->.
  - rewrite lookup_insert. case_decide; by eexists.
Qed.

(** Once every variable in the registry has been destroyed, the registry
    is empty. *)
Lemma destroy_variables_empties this hs (w w' : World) dom :
  domains w !! this = Some dom →
  (∀ h, h ∈ m_managed_variables dom →
        h ∈ hs ∧ get_m_domain h w = Some this) →
  destroy_variables hs w = Some w' →
  ∃ dom', domains w' !! this = Some dom' ∧ m_managed_variables dom' = ∅.
Proof.
  revert w dom. induction hs as [|h0 hs IH]; intros w dom Hdom Hreg Hrun.
  - injection Hrun as <-. exists dom. split; [done|].
    apply set_eq. intros h. split; [|by intros ?%not_elem_of_empty].
    intros [Hh _]%Hreg. inversion Hh.
  - cbn [destroy_variables] in Hrun.
    destruct (DomainRestrictedVariable_dtor h0 w) as [w1|] eqn:Hdtor;
      [|done].
    cbn [mbind option_bind] in Hrun.
    apply DomainRestrictedVariable_dtor_inv in Hdtor
      as (var0 & dom0 & Hvar0 & Hdom0 & ->).
    assert (Hdom1 : ∃ dom1,
      domains (mkWorld
                 (<[m_domain var0 :=
                      mkDomain (m_allowed_values dom0)
                               (m_managed_variables dom0 ∖ {[h0]})]>
                    (domains w))
                 (delete h0 (variables w))) !! this = Some dom1
      ∧ ∀ h, h ∈ m_managed_variables dom1 →
             h ∈ m_managed_variables dom ∧ h ≠ h0).
    { cbn [domains]. destruct (decide (m_domain var0 = this)) as [Heq|Hdiff].
      - rewrite Heq in *. rewrite lookup_insert_eq. eexists. split; [done|].
        cbn [m_managed_variables]. assert (dom0 = dom) as -> by congruence.
        set_solver.
      - rewrite lookup_insert_ne by done. exists dom. split; [done|].
        intros h Hh. split; [done|]. intros ->.
        destruct (Hreg _ Hh) as [_ Hb]. unfold get_m_domain in Hb.
        rewrite Hvar0 in Hb. by injection Hb. }
    destruct Hdom1 as (dom1 & Hdom1 & Hsub).
    eapply (IH _ dom1); [exact Hdom1| |exact Hrun].
    intros h [Hh Hne]%Hsub. destruct (Hreg _ Hh) as [Hin Hb]. split.
    + by apply elem_of_cons in Hin as [?|?].
    + unfold get_m_domain in *. cbn [variables].
      by rewrite lookup_delete_ne.
Qed.

(** C5. The destructor of a domain throws [std::logic_error] while its
    registry is not empty.  The destructor of a variable takes the
    variable out of the registry of its domain; once the variables in the
    registry have been destroyed (as they can be, one after the other),
    the destructor of the domain goes through. *)
Theorem VariableDomain_teardown this (w : World) dom :
  domains w !! this = Some dom →
  (m_managed_variables dom ≠ ∅ →
   ∃ what, VariableDomain_dtor this w = Some (logic_error what))
  ∧ (∀ hs w',
       (∀ h, h ∈ m_managed_variables dom →
             h ∈ hs ∧ get_m_domain h w = Some this) →
       destroy_variables hs w = Some w' →
       VariableDomain_dtor this w'
       = Some (destroyed (mkWorld (delete this (domains w'))
                                  (variables w'))))
  ∧ ((∀ h, h ∈ m_managed_variables dom → get_m_domain h w = Some this) →
     is_Some (destroy_variables (elements (m_managed_variables dom)) w)).
Proof.
  intros Hdom. split_and!.
  - intros Hsubs. unfold VariableDomain_dtor. rewrite Hdom.
    cbn [mbind option_bind]. rewrite decide_False by done. by eexists.
  - intros hs w' Hreg Hrun.
    destruct (destroy_variables_empties _ _ _ _ _ Hdom Hreg Hrun)
      as (dom' & Hdom' & Hempty).
    unfold VariableDomain_dtor. rewrite Hdom'. cbn [mbind option_bind].
    by rewrite decide_True.
  - intros Hreg. apply destroy_variables_run; [apply NoDup_elements|].
    intros h Hh%elem_of_elements%Hreg. unfold get_m_domain in Hh.
    destruct (variables w !! h) as [var|]; [|done].
    injection Hh as Hh. exists var. rewrite Hh, Hdom. by split.
Qed.

Lemma operator_lt_no_result c fuel lhs rhs (w : World) :
  operator_lt c fuel lhs rhs w = None.
Proof.
  induction fuel as [|fuel IH]; [done|]. cbn [operator_lt]. by destruct c.
Qed.

(** C9 (what the code does). No comparison of two variables has a result.
    The operators hand the two handles themselves to the comparator: the
    comparator of values cannot take them, and the transparent one comes
    back to [operator<], however deep the calls may go.  What the two
    variables resolve to plays no part. *)
Theorem comparisons_have_no_result c fuel lhs rhs (w : World) :
  operator_lt c fuel lhs rhs w = None
  ∧ operator_eq c fuel lhs rhs w = None
  ∧ operator_ne c fuel lhs rhs w = None
  ∧ operator_gt c fuel lhs rhs w = None
  ∧ operator_le c fuel lhs rhs w = None
  ∧ operator_ge c fuel lhs rhs w = None.
Proof.
  assert (Hcall : Compare_call c fuel lhs rhs w = None).
  { unfold Compare_call. destruct c; [done|]. apply operator_lt_no_result. }
  unfold operator_ne, operator_le, operator_ge, operator_gt, operator_eq.
  by rewrite Hcall, !operator_lt_no_result.
Qed.
End lifecycle.

(** ** The example program *)

Section example.
Import Example.

Lemma less_irrefl x : less x x = false.
Proof. apply Z.ltb_irrefl. Qed.

Lemma less_total x y : less x y = false → less y x = false → x = y.
Proof. unfold less. rewrite !Z.ltb_ge. lia. Qed.

Lemma less_asym x y : less x y = true → less y x = false.
Proof. unfold less. rewrite Z.ltb_lt, Z.ltb_ge. lia. Qed.

(** The example is what two constructor calls make of the domain. *)
Lemma w0_constructed :
  DomainRestrictedVariable_ctor_value less 100 0 2%Z w_unbound
  ≫= DomainRestrictedVariable_ctor_value less 101 0 1%Z
  = Some w0.
Proof. vm_compute. reflexivity. Qed.

Lemma subscribed_100 : 100 ∈ m_managed_variables d123.
Proof. cbn. set_solver. Qed.

(** C1 (where the code breaks it). In the example every subscriber is
    empty or points into the set.  Replace 2 by 2: the call returns true,
    and the variable at 100, still in the registry and still reporting a
    value, points at a node that is in the set no longer. *)
Theorem self_replacement_breaks_invariant :
  consistent w0 = true
  ∧ ∃ w1 dom1,
      replaceAllowedValue less 40 0 2%Z 2%Z w0 = Some (true, w1)
      ∧ consistent w1 = false
      ∧ domains w1 !! 0 = Some dom1
      ∧ 100 ∈ m_managed_variables dom1
      ∧ (has_value <$> variables w1 !! 100) = Some true
      ∧ (m_value <$> variables w1 !! 100) = Some (node 20)
      ∧ StdSet.is_node (node 20) (m_allowed_values dom1) = false.
Proof.
  split; [by vm_compute|].
  eexists _, _. split_and!.
  - vm_compute. reflexivity.
  - by vm_compute.
  - vm_compute. reflexivity.
  - cbn. set_solver.
  - by vm_compute.
  - by vm_compute.
  - by vm_compute.
Qed.

(** C3 (where the code breaks it). The test in [removeAllowedValue] looks
    at the value and at [end()], not at what [find] returned, so it gives
    the same answer whether 2 is in the domain or not.  If it says "equal",
    removing 2 from 1, 2, 3 returns false and removes nothing; if it says
    "different", removing 2 from 1, 3 runs into [erase(end())]. *)
Theorem removeAllowedValue_test_ignores_the_set :
  isAllowedValue less 0 2%Z w0 = Some true
  ∧ isAllowedValue less 0 2%Z w13 = Some false
  ∧ ∀ value_eq_iterator,
      removeAllowedValue less value_eq_iterator 0 2%Z w0 = Some (false, w0)
      ∨ removeAllowedValue less value_eq_iterator 0 2%Z w13 = None.
Proof.
  split_and!; [by vm_compute..|]. intros test.
  destruct (test 2%Z (past_the_end 0)) eqn:Htest.
  - left. by eapply removeAllowedValue_test_true.
  - right. by eapply removeAllowedValue_not_found.
Qed.

(** C4 (where the code breaks it). 2 is in the domain, so the replacement
    2 equals an element of the domain, and the variable at 100 resolves
    to it.  After replacing 2 by 2 the domain holds 1 and 3, and the
    variable at 100 points at the node that was erased: it resolves to
    nothing. *)
Theorem replacement_by_itself_loses_the_element :
  isAllowedValue less 0 2%Z w0 = Some true
  ∧ operator_value_type 100 w0 = Some 2%Z
  ∧ ∃ w1,
      replaceAllowedValue less 40 0 2%Z 2%Z w0 = Some (true, w1)
      ∧ isAllowedValue less 0 1%Z w1 = Some true
      ∧ isAllowedValue less 0 2%Z w1 = Some false
      ∧ isAllowedValue less 0 3%Z w1 = Some true
      ∧ variables w1 !! 100 = Some (mkVariable 0 (node 20))
      ∧ operator_value_type 100 w1 = None.
Proof.
  split_and!; [by vm_compute..|].
  eexists. split_and!; [vm_compute; reflexivity|by vm_compute..].
Qed.

(** *** The theorems at work on the example *)

Lemma node_10_in_d123 : (10, 1%Z) ∈ m_allowed_values d123.
Proof. cbn. set_solver. Qed.

(** Replacing 2 by 5: the variable at 100 follows to the new node. *)
Lemma replaceAllowedValue_atomic_witness :
  ∃ w',
    replaceAllowedValue less 40 0 2%Z 5%Z w0 = Some (true, w')
    ∧ isAllowedValue less 0 5%Z w' = Some true
    ∧ isAllowedValue less 0 2%Z w' = Some false
    ∧ operator_value_type 100 w' = Some 5%Z.
Proof.
  destruct (replaceAllowedValue_atomic less less_irrefl less_total
              40 0 2%Z 5%Z w0 d123) as [Hpresent _].
  - reflexivity.
  - vm_compute. reflexivity.
  - vm_compute. reflexivity.
  - lia.
  - destruct Hpresent
      as (w' & dom' & old_id & new_id & Hrun & Hold & _ & _ & _
          & Hnew & Hgone & Hvars).
    + vm_compute. reflexivity.
    + vm_compute in Hold. injection Hold as <-.
      destruct (Hvars 100 (mkVariable 0 (node 20)))
        as (var' & _ & _ & Hfollows).
      * exact subscribed_100.
      * vm_compute. reflexivity.
      * destruct Hfollows as (_ & _ & Hvalue); [reflexivity|].
        exists w'. split_and!; [assumption..|]. by apply Hvalue.
Defined.

(** Replacing 2 by 3, which is there already: the set keeps the nodes at 10
    and 30, and the variable at 100 moves over to the node at 30. *)
Lemma replaceAllowedValue_onto_existing_witness :
  ∃ w',
    replaceAllowedValue less 40 0 2%Z 3%Z w0 = Some (true, w')
    ∧ domains w' !! 0 = Some (mkDomain [(10, 1%Z); (30, 3%Z)] {[100; 101]})
    ∧ variables w' !! 100 = Some (mkVariable 0 (node 30))
    ∧ operator_value_type 100 w' = Some 3%Z.
Proof.
  destruct (replaceAllowedValue_onto_existing less less_irrefl less_total
              40 0 2%Z 3%Z w0 d123)
    as (w' & old_id & new_id & Hold & Hnew & Hrun & Hdom' & _ & Hvars).
  - reflexivity.
  - vm_compute. reflexivity.
  - lia.
  - vm_compute. reflexivity.
  - vm_compute. reflexivity.
  - vm_compute in Hold, Hnew. injection Hold as <-. injection Hnew as <-.
    destruct (Hvars 100 (mkVariable 0 (node 20))) as [Hvar Hvalue].
    + exact subscribed_100.
    + vm_compute. reflexivity.
    + reflexivity.
    + reflexivity.
    + exists w'. split_and!; assumption.
Defined.

(** Replacing 2 by 2. *)
Lemma replaceAllowedValue_self_witness :
  ∃ w',
    replaceAllowedValue less 40 0 2%Z 2%Z w0 = Some (true, w')
    ∧ isAllowedValue less 0 2%Z w' = Some false
    ∧ variables w' !! 100 = Some (mkVariable 0 (node 20))
    ∧ has_value (mkVariable 0 (node 20)) = true.
Proof.
  destruct (replaceAllowedValue_self less less_irrefl less_total
              40 0 2%Z w0 d123)
    as (w' & dom' & id & Hfind & _ & Hrun & _ & Hgone & _ & Hvars).
  - reflexivity.
  - vm_compute. reflexivity.
  - vm_compute. reflexivity.
  - vm_compute in Hfind. injection Hfind as <-.
    destruct (Hvars 100 (mkVariable 0 (node 20))) as [Hvar Hhas].
    + vm_compute. reflexivity.
    + reflexivity.
    + exists w'. split_and!; assumption.
Defined.

(** The variable at 101 points at 1; removing or replacing 2 leaves it
    alone. *)
Lemma unrelated_variable_untouched_witness :
  operator_value_type 101 w0 = Some 1%Z
  ∧ ∃ b w',
      replaceAllowedValue less 40 0 2%Z 5%Z w0 = Some (b, w')
      ∧ variables w' !! 101 = variables w0 !! 101
      ∧ operator_value_type 101 w' = operator_value_type 101 w0.
Proof.
  destruct (unrelated_variable_untouched less less_irrefl less_total
              40 0 2%Z 5%Z w0 d123 101 (mkVariable 0 (node 10)) 10 1%Z)
    as (Hbefore & _ & _ & Hreplace).
  - reflexivity.
  - vm_compute. reflexivity.
  - vm_compute. reflexivity.
  - vm_compute. reflexivity.
  - reflexivity.
  - reflexivity.
  - exact node_10_in_d123.
  - lia.
  - split; assumption.
Defined.

(** Constructing the variable at 102 from the value 4, which is not in the
    domain. *)
Lemma lookup_miss_reports_a_value_witness :
  ∃ w',
    DomainRestrictedVariable_ctor_value less 102 0 4%Z w0 = Some w'
    ∧ (has_value <$> variables w' !! 102) = Some true.
Proof.
  destruct (lookup_miss_reports_a_value less 102 0 4%Z w0 d123)
    as ((w' & dom' & Hrun & Hvar & _) & _ & Hhas & _).
  - reflexivity.
  - vm_compute. reflexivity.
  - exists w'. split; [assumption|]. rewrite Hvar. cbn. by rewrite Hhas.
Defined.

(** Destroying the domain at once throws; destroying the variables at 100
    and 101 first lets it go through. *)
Lemma VariableDomain_teardown_witness :
  (∃ what, VariableDomain_dtor 0 w0 = Some (logic_error what))
  ∧ ∃ w' w'',
      destroy_variables [100; 101] w0 = Some w'
      ∧ VariableDomain_dtor 0 w' = Some (destroyed w'').
Proof.
  destruct (VariableDomain_teardown 0 w0 d123) as (Hthrows & Hafter & _).
  - reflexivity.
  - split.
    + apply Hthrows. cbn. intros Hempty.
      assert (100 ∈ (∅ : gset nat)) as Hin; [|by apply not_elem_of_empty in Hin].
      rewrite <- Hempty. set_solver.
    + eexists _, _. split.
      * vm_compute. reflexivity.
      * apply (Hafter [100; 101]); [|vm_compute; reflexivity].
        cbn. intros h Hh. split.
        -- set_solver.
        -- apply elem_of_union in Hh as [->%elem_of_singleton
                                         | ->%elem_of_singleton];
             reflexivity.
Defined.

(** Moving the variable at 100 into a new one at 102; the statements of
    moving it into the one at 101; and the move assignment itself. *)
Lemma move_transfers_witness :
  (∃ w', DomainRestrictedVariable_ctor_move 102 100 w0 = Some w'
         ∧ transferred 102 100 (mkVariable 0 (node 20)) w')
  ∧ (∃ w', operator_assign_move_statements 101 100 w0 = Some w'
           ∧ transferred 101 100 (mkVariable 0 (node 20)) w')
  ∧ operator_assign_move 101 100 w0 = None.
Proof.
  split_and!.
  - destruct (move_transfers 102 100 w0 (mkVariable 0 (node 20)) d123)
      as (Hctor & _ & _); [reflexivity|reflexivity|lia|].
    apply Hctor. reflexivity.
  - destruct (move_transfers 101 100 w0 (mkVariable 0 (node 20)) d123)
      as (_ & Hassign & _); [reflexivity|reflexivity|lia|].
    apply (Hassign (mkVariable 0 (node 10)) d123); reflexivity.
  - destruct (move_transfers 101 100 w0 (mkVariable 0 (node 20)) d123)
      as (_ & _ & Hnone); [reflexivity|reflexivity|lia|].
    exact Hnone.
Defined.

End example.

(** ** More about the set: insertion seen from outside, and its order *)

Section set_order.
Context {value_type : Type}.
Variable Compare : value_type → value_type → bool.

#[local] Abbreviation equivalent := (StdSet.equivalent Compare).
#[local] Abbreviation find := (StdSet.find Compare).
#[local] Abbreviation place := (StdSet.place Compare).

Lemma find_place_other d a u value (s : list (nat * value_type)) :
  equivalent u value = false →
  find d u (place (a, value) s) = find d u s.
Proof.
  intros Hne. induction s as [|m s IH]; cbn [StdSet.place StdSet.find fst snd].
  - by rewrite Hne.
  - destruct (Compare value m.2); cbn [StdSet.find fst snd].
    + by rewrite Hne.
    + by rewrite IH.
Qed.

Lemma find_place_same d a value (s : list (nat * value_type)) :
  Compare value value = false →
  find d value s = past_the_end d →
  find d value (place (a, value) s) = node a.
Proof.
  intros Hirr.
  assert (Hrefl : equivalent value value = true).
  { unfold StdSet.equivalent. by rewrite Hirr. }
  induction s as [|m s IH]; cbn [StdSet.place StdSet.find fst snd].
  - by rewrite Hrefl.
  - destruct (equivalent value m.2) eqn:He; [done|]. intros Hf.
    destruct (Compare value m.2); cbn [StdSet.find fst snd].
    + by rewrite Hrefl.
    + rewrite He. by apply IH.
Qed.

Lemma deref_place it a value (s : list (nat * value_type)) :
  it ≠ node a →
  StdSet.deref it (place (a, value) s) = StdSet.deref it s.
Proof.
  intros Hne. induction s as [|m s IH]; cbn [StdSet.place StdSet.deref fst snd].
  - by rewrite decide_False.
  - destruct (Compare value m.2); cbn [StdSet.deref fst snd].
    + by rewrite decide_False.
    + by rewrite IH.
Qed.

(** What [find] says after an insertion. *)
Lemma find_insert_same d a value (s : list (nat * value_type)) :
  Compare value value = false →
  find d value (StdSet.insert Compare d a value s).2 ≠ past_the_end d.
Proof.
  intros Hirr.
  destruct (insert_cases Compare d a value s) as [(p & Hf & ->)|[Hf ->]];
    cbn [snd].
  - by rewrite Hf.
  - by rewrite find_place_same.
Qed.

Lemma find_insert_other d a u value (s : list (nat * value_type)) :
  equivalent u value = false →
  find d u (StdSet.insert Compare d a value s).2 = find d u s.
Proof.
  intros Hne.
  destruct (insert_cases Compare d a value s) as [(p & Hf & ->)|[Hf ->]];
    cbn [snd]; [done|].
  by apply find_place_other.
Qed.

Lemma deref_insert it d a value (s : list (nat * value_type)) x :
  StdSet.fresh a s = true →
  StdSet.deref it s = Some x →
  StdSet.deref it (StdSet.insert Compare d a value s).2 = Some x.
Proof.
  intros Hfresh Hx.
  destruct (insert_cases Compare d a value s) as [(p & Hf & ->)|[Hf ->]];
    cbn [snd]; [done|].
  rewrite deref_place; [done|].
  apply deref_elem in Hx as (p & -> & Hp). intros [= ->].
  by apply (fresh_elem _ _ _ Hfresh Hp).
Qed.

Lemma fresh_intro a (s : list (nat * value_type)) :
  (∀ n, n ∈ s → n.1 ≠ a) → StdSet.fresh a s = true.
Proof.
  intros Hall. apply forallb_forall. intros n Hn%list_elem_of_In.
  apply negb_true_iff, Nat.eqb_neq. by apply Hall.
Qed.

Lemma insert_new_address d a value (s : list (nat * value_type)) n :
  n ∈ (StdSet.insert Compare d a value s).2 → n ∈ s ∨ n.1 = a.
Proof.
  destruct (insert_cases Compare d a value s) as [(p & Hf & ->)|[Hf ->]];
    cbn [snd]; [by left|].
  intros [->|?]%elem_of_place; [by right | by left].
Qed.

(** *** The order of the nodes *)

Section ascending.
Hypothesis Compare_trans :
  ∀ x y z, Compare x y = true → Compare y z = true → Compare x z = true.

Lemma ascending_place d a value (s : list (nat * value_type)) :
  StdSet.ascending Compare s = true →
  find d value s = past_the_end d →
  StdSet.ascending Compare (place (a, value) s) = true.
Proof.
  induction s as [|m s IH]; [done|].
  cbn [StdSet.ascending StdSet.find StdSet.place fst snd].
  intros [Hhd Htl]%andb_true_iff.
  destruct (equivalent value m.2) eqn:He; [done|]. intros Hf.
  destruct (Compare value m.2) eqn:Hcmp.
  - cbn [StdSet.ascending forallb fst snd]. rewrite Hcmp, Hhd, Htl.
    rewrite !andb_true_r. apply forallb_forall. intros k Hk.
    rewrite forallb_forall in Hhd. by eapply Compare_trans, Hhd.
  - cbn [StdSet.ascending]. rewrite forallb_place, Hhd, (IH Htl Hf).
    rewrite !andb_true_r. cbn [snd].
    unfold StdSet.equivalent in He. rewrite Hcmp in He.
    by destruct (Compare m.2 value).
Qed.

Lemma ascending_insert d a value (s : list (nat * value_type)) :
  StdSet.ascending Compare s = true →
  StdSet.ascending Compare (StdSet.insert Compare d a value s).2 = true.
Proof.
  intros Hasc.
  destruct (insert_cases Compare d a value s) as [(p & Hf & ->)|[Hf ->]];
    cbn [snd]; [done|].
  by apply (ascending_place d).
Qed.
End ascending.

Lemma ascending_filter (keep : nat * value_type → bool) s :
  StdSet.ascending Compare s = true →
  StdSet.ascending Compare (List.filter keep s) = true.
Proof.
  induction s as [|m s IH]; [done|]. cbn [StdSet.ascending List.filter].
  intros [Hhd Htl]%andb_true_iff. destruct (keep m); [|by apply IH].
  cbn [StdSet.ascending]. rewrite IH, andb_true_r by done.
  rewrite forallb_forall in Hhd. apply forallb_forall.
  intros k [Hk _]%filter_In. by apply Hhd.
Qed.

Lemma ascending_erase it (s s' : list (nat * value_type)) :
  StdSet.ascending Compare s = true →
  StdSet.erase it s = Some s' →
  StdSet.ascending Compare s' = true.
Proof.
  intros Hasc. unfold StdSet.erase. destruct it as [| |a]; [done..|].
  destruct (StdSet.is_node (node a) s); [|done].
  intros [= <-]. by apply ascending_filter.
Qed.
End set_order.

(** ** The domain: constructing it, adding to it, walking it *)

Section domain_extras.
Context {value_type : Type}.
Variable Compare : value_type → value_type → bool.
Hypothesis Compare_irrefl : ∀ x, Compare x x = false.
Hypothesis Compare_total :
  ∀ x y, Compare x y = false → Compare y x = false → x = y.
Hypothesis Compare_trans :
  ∀ x y z, Compare x y = true → Compare y z = true → Compare x z = true.

#[local] Abbreviation World := (world value_type).
#[local] Abbreviation find := (StdSet.find Compare).

Lemma store_domain_same d (w : World) dom :
  domains w !! d = Some dom →
  store_domain d (mkDomain (m_allowed_values dom) (m_managed_variables dom)) w
  = w.
Proof.
  clear Compare_irrefl Compare_total Compare_trans Compare.
  intros Hdom. destruct w as [ds vs], dom as [s subs]. unfold store_domain.
  cbn in *. f_equal. by apply insert_id.
Qed.

Lemma addAllowedValue_run a this value (w : World) dom :
  domains w !! this = Some dom →
  addAllowedValue Compare a this value w
  = Some ((StdSet.insert Compare this a value (m_allowed_values dom)).1.2,
          store_domain this
            (mkDomain (StdSet.insert Compare this a value
                         (m_allowed_values dom)).2
                      (m_managed_variables dom)) w).
Proof.
  intros Hdom. unfold addAllowedValue. rewrite Hdom.
  cbn [mbind option_bind].
  by destruct (StdSet.insert Compare this a value (m_allowed_values dom))
    as [[first second] s1].
Qed.

Lemma isAllowedValue_store this value (w : World) dom :
  isAllowedValue Compare this value (store_domain this dom w)
  = Some (bool_decide (find this value (m_allowed_values dom)
                       ≠ past_the_end this)).
Proof.
  unfold isAllowedValue, store_domain. cbn [domains].
  by rewrite lookup_insert_eq.
Qed.

(** X1. [addAllowedValue] always returns; it returns true exactly when the
    value was not allowed before; afterwards the value is allowed, every
    other value is allowed or not as it was, and neither the variables nor
    the registry have changed. *)
Theorem addAllowedValue_inserts a this value (w : World) dom :
  domains w !! this = Some dom →
  ∃ b w' dom',
    addAllowedValue Compare a this value w = Some (b, w')
    ∧ isAllowedValue Compare this value w = Some (negb b)
    ∧ isAllowedValue Compare this value w' = Some true
    ∧ (∀ u, StdSet.equivalent Compare u value = false →
            isAllowedValue Compare this u w'
            = isAllowedValue Compare this u w)
    ∧ variables w' = variables w
    ∧ domains w' !! this = Some dom'
    ∧ m_managed_variables dom' = m_managed_variables dom.
Proof.
  intros Hdom. eexists _, _, _.
  split; [by apply addAllowedValue_run|]. split_and!.
  - unfold isAllowedValue. rewrite Hdom. cbn [mbind option_bind]. f_equal.
    destruct (insert_cases Compare this a value (m_allowed_values dom))
      as [(p & Hf & ->)|[Hf ->]]; cbn [fst snd negb]; rewrite Hf.
    + by apply bool_decide_eq_true.
    + apply bool_decide_eq_false. by intros ?.
  - rewrite isAllowedValue_store. f_equal. apply bool_decide_eq_true.
    cbn [m_allowed_values]. by apply find_insert_same.
  - intros u Hu. rewrite isAllowedValue_store. unfold isAllowedValue.
    rewrite Hdom. cbn [mbind option_bind m_allowed_values].
    by rewrite find_insert_other.
  - done.
  - unfold store_domain. cbn [domains]. by rewrite lookup_insert_eq.
  - done.
Qed.

(** X2. Adding a value invalidates nothing: a variable that resolved to a
    value before the call resolves to the same value after it. *)
Theorem addAllowedValue_keeps_references a this value (w : World) dom :
  domains w !! this = Some dom →
  StdSet.fresh a (m_allowed_values dom) = true →
  ∀ b w',
    addAllowedValue Compare a this value w = Some (b, w') →
    ∀ h x, operator_value_type h w = Some x →
           operator_value_type h w' = Some x.
Proof.
  intros Hdom Hfresh b w' Hrun h x.
  rewrite (addAllowedValue_run _ _ _ _ _ Hdom) in Hrun.
  injection Hrun as _ <-.
  unfold operator_value_type, store_domain. cbn [variables domains].
  destruct (variables w !! h) as [var|]; [|done]. cbn [mbind option_bind].
  destruct (decide (m_domain var = this)) as [->|Hother].
  - rewrite lookup_insert_eq, Hdom. cbn [mbind option_bind m_allowed_values].
    by apply deref_insert.
  - by rewrite lookup_insert_ne.
Qed.

(** X3. Adding a value that is allowed already returns false and leaves
    the world exactly as it was. *)
Theorem addAllowedValue_present a this value (w : World) dom :
  domains w !! this = Some dom →
  isAllowedValue Compare this value w = Some true →
  addAllowedValue Compare a this value w = Some (false, w).
Proof.
  intros Hdom Hin. rewrite (addAllowedValue_run _ _ _ _ _ Hdom).
  unfold isAllowedValue in Hin. rewrite Hdom in Hin.
  cbn [mbind option_bind] in Hin.
  injection Hin as Hin%bool_decide_eq_true.
  destruct (insert_cases Compare this a value (m_allowed_values dom))
    as [(p & Hf & ->)|[Hf _]]; [|done].
  cbn [fst snd]. by rewrite store_domain_same.
Qed.

Lemma find_insert_range d v (l s : list (nat * value_type)) :
  find d v (StdSet.insert_range Compare d l s) ≠ past_the_end d
  ↔ find d v s ≠ past_the_end d ∨ v ∈ l.*2.
Proof.
  revert s. induction l as [|n l IH]; intros s.
  - cbn. split; [by left|]. intros [?|Hin]; [done|]. inversion Hin.
  - change (StdSet.insert_range Compare d (n :: l) s)
      with (StdSet.insert_range Compare d l
              (StdSet.insert Compare d n.1 n.2 s).2).
    rewrite IH, fmap_cons, elem_of_cons.
    destruct (StdSet.equivalent Compare v n.2) eqn:He.
    + apply (equivalent_eq Compare) in He as ->; [|done..].
      pose proof (find_insert_same Compare d n.1 n.2 s (Compare_irrefl _)).
      tauto.
    + rewrite find_insert_other by done.
      assert (v ≠ n.2).
      { intros ->. assert (StdSet.equivalent Compare n.2 n.2 = true)
          by by apply (equivalent_eq Compare). congruence. }
      tauto.
Qed.

(** X5. After [addAllowedValues] the allowed values are those allowed before
    and those on the list; no variable is touched. *)
Theorem addAllowedValues_allows this ilist (w : World) dom :
  domains w !! this = Some dom →
  ∃ w',
    addAllowedValues Compare this ilist w = Some w'
    ∧ variables w' = variables w
    ∧ ∀ v, isAllowedValue Compare this v w' = Some true
           ↔ isAllowedValue Compare this v w = Some true ∨ v ∈ ilist.*2.
Proof.
  intros Hdom. eexists. split_and!.
  - unfold addAllowedValues. by rewrite Hdom.
  - done.
  - intros v. rewrite isAllowedValue_store. unfold isAllowedValue.
    rewrite Hdom. cbn [mbind option_bind m_allowed_values].
    split.
    + intros [= H%bool_decide_eq_true].
      apply find_insert_range in H as [H|H]; [left|by right].
      f_equal. by apply bool_decide_eq_true.
    + intros [[= H%bool_decide_eq_true]|H]; f_equal;
        apply bool_decide_eq_true, find_insert_range; [by left | by right].
Qed.

Lemma insert_range_well_formed d (l s : list (nat * value_type)) :
  StdSet.well_formed Compare s = true →
  NoDup l.*1 →
  (∀ n m, n ∈ l → m ∈ s → m.1 ≠ n.1) →
  StdSet.well_formed Compare (StdSet.insert_range Compare d l s) = true.
Proof.
  revert s. induction l as [|n l IH]; intros s Hwf Hnd Hnew; [done|].
  change (StdSet.insert_range Compare d (n :: l) s)
    with (StdSet.insert_range Compare d l
            (StdSet.insert Compare d n.1 n.2 s).2).
  rewrite fmap_cons in Hnd. apply NoDup_cons in Hnd as [Hn Hnd].
  apply IH; [|done|].
  - apply insert_well_formed; [done|]. apply fresh_intro.
    intros m Hm. apply Hnew; [by left | done].
  - intros k m Hk [Hm|Hm]%insert_new_address.
    + apply Hnew; [by right | done].
    + rewrite Hm. intros Heq. apply Hn. rewrite Heq.
      by apply list_elem_of_fmap_2.
Qed.

Lemma insert_range_ascending d (l s : list (nat * value_type)) :
  StdSet.ascending Compare s = true →
  StdSet.ascending Compare (StdSet.insert_range Compare d l s) = true.
Proof.
  revert s. induction l as [|n l IH]; intros s Hasc; [done|].
  change (StdSet.insert_range Compare d (n :: l) s)
    with (StdSet.insert_range Compare d l
            (StdSet.insert Compare d n.1 n.2 s).2).
  by apply IH, ascending_insert.
Qed.

(** X6. A domain constructed from a list of values has an empty registry
    and allows exactly the values on the list; its set is well formed (the
    nodes having addresses of their own) and in ascending order. *)
Theorem VariableDomain_ctor_builds this ilist (w : World) :
  NoDup ilist.*1 →
  ∃ dom,
    domains (VariableDomain_ctor Compare this ilist w) !! this = Some dom
    ∧ m_managed_variables dom = ∅
    ∧ StdSet.well_formed Compare (m_allowed_values dom) = true
    ∧ StdSet.ascending Compare (m_allowed_values dom) = true
    ∧ ∀ v, isAllowedValue Compare this v (VariableDomain_ctor Compare this ilist w)
           = Some true ↔ v ∈ ilist.*2.
Proof.
  intros Hnd. eexists. unfold VariableDomain_ctor. split_and!.
  - unfold store_domain. cbn [domains]. by rewrite lookup_insert_eq.
  - done.
  - cbn [m_allowed_values]. apply insert_range_well_formed; [done..|].
    intros n m _ Hm. inversion Hm.
  - cbn [m_allowed_values]. by apply insert_range_ascending.
  - intros v. rewrite isAllowedValue_store. cbn [m_allowed_values].
    split.
    + intros [= H%bool_decide_eq_true].
      apply find_insert_range in H as [H|H]; done.
    + intros Hin. f_equal. apply bool_decide_eq_true.
      apply find_insert_range. by right.
Qed.

(** X7. A domain that has just been constructed can be destroyed at once,
    and construction followed by destruction gives back the world there
    was. *)
Theorem VariableDomain_ctor_dtor this ilist (w : World) :
  domains w !! this = None →
  VariableDomain_dtor this (VariableDomain_ctor Compare this ilist w)
  = Some (destroyed w).
Proof.
  intros Hnew. unfold VariableDomain_dtor, VariableDomain_ctor, store_domain.
  cbn [domains variables]. rewrite lookup_insert_eq.
  cbn [mbind option_bind m_managed_variables]. rewrite decide_True by done.
  rewrite delete_insert_eq, delete_id by done. by destruct w.
Qed.
End domain_extras.

(** ** The domain: what its mutators keep and what removal does *)

Section mutators.
Context {value_type : Type}.
Variable Compare : value_type → value_type → bool.
Variable value_eq_iterator : value_type → pointer → bool.
Hypothesis Compare_irrefl : ∀ x, Compare x x = false.
Hypothesis Compare_total :
  ∀ x y, Compare x y = false → Compare y x = false → x = y.
Hypothesis Compare_trans :
  ∀ x y z, Compare x y = true → Compare y z = true → Compare x z = true.

#[local] Abbreviation World := (world value_type).
#[local] Abbreviation find := (StdSet.find Compare).
#[local] Abbreviation erased p s :=
  (List.filter (λ n : nat * value_type, negb (Nat.eqb n.1 p)) s).

(** The three ways a removal can end. *)
Lemma removeAllowedValue_outcome this value (w : World) dom b w' :
  domains w !! this = Some dom →
  removeAllowedValue Compare value_eq_iterator this value w = Some (b, w') →
  (b = false ∧ w' = w
   ∧ value_eq_iterator value (past_the_end this) = true)
  ∨ (∃ p, b = true
          ∧ value_eq_iterator value (past_the_end this) = false
          ∧ find this value (m_allowed_values dom) = node p
          ∧ domains w'
            = <[this := mkDomain (erased p (m_allowed_values dom))
                                 (m_managed_variables dom)]> (domains w)
          ∧ ∀ h, variables w' !! h
                 = if decide (h ∈ m_managed_variables dom)
                   then DomainRestrictedVariable_deletionNotice (node p)
                          <$> variables w !! h
                   else variables w !! h).
Proof.
  intros Hdom Hrun.
  destruct (value_eq_iterator value (past_the_end this)) eqn:Htest.
  { erewrite removeAllowedValue_test_true in Hrun by done.
    injection Hrun as <- <-. by left. }
  destruct (find_cases Compare this value (m_allowed_values dom))
    as [[Hf _]|(n & _ & _ & Hf)].
  { by erewrite removeAllowedValue_not_found in Hrun. }
  destruct (removeAllowedValue_found Compare value_eq_iterator this value
              w dom n.1 Hdom Hf Htest) as (w1 & Hrun1 & Hdoms & Hvars).
  rewrite Hrun1 in Hrun. injection Hrun as <- <-. right. by exists n.1.
Qed.

(** The three ways a replacement can end. *)
Lemma replaceAllowedValue_outcome a this to_replace replacement
    (w : World) dom b w' :
  domains w !! this = Some dom →
  replaceAllowedValue Compare a this to_replace replacement w
  = Some (b, w') →
  (b = false ∧ w' = w)
  ∨ (∃ p, b = true
          ∧ find this to_replace (m_allowed_values dom) = node p
          ∧ domains w'
            = <[this :=
                  mkDomain
                    (erased p (StdSet.insert Compare this a replacement
                                 (m_allowed_values dom)).2)
                    (m_managed_variables dom)]> (domains w)
          ∧ ∀ h, variables w' !! h
                 = if decide (h ∈ m_managed_variables dom)
                   then DomainRestrictedVariable_replacementNotice (node p)
                          (StdSet.insert Compare this a replacement
                             (m_allowed_values dom)).1.1
                          <$> variables w !! h
                   else variables w !! h).
Proof.
  intros Hdom Hrun.
  destruct (find_cases Compare this to_replace (m_allowed_values dom))
    as [[Hf _]|(n & _ & _ & Hf)].
  { erewrite replaceAllowedValue_not_found in Hrun by done.
    injection Hrun as <- <-. by left. }
  destruct (replaceAllowedValue_found Compare a this to_replace replacement
              w dom n.1 Hdom Hf) as (w1 & Hrun1 & Hdoms & Hvars).
  rewrite Hrun1 in Hrun. injection Hrun as <- <-. right. by exists n.1.
Qed.

(** X8. Whatever [addAllowedValue], [removeAllowedValue] or
    [replaceAllowedValue] returns, it leaves the set well formed and in
    ascending order if it found it so and the new node had an address of
    its own. *)
Theorem mutators_keep_the_set_ordered a this value replacement
    (w : World) dom :
  domains w !! this = Some dom →
  StdSet.well_formed Compare (m_allowed_values dom) = true →
  StdSet.ascending Compare (m_allowed_values dom) = true →
  StdSet.fresh a (m_allowed_values dom) = true →
  ∀ b w',
    addAllowedValue Compare a this value w = Some (b, w')
    ∨ removeAllowedValue Compare value_eq_iterator this value w = Some (b, w')
    ∨ replaceAllowedValue Compare a this value replacement w = Some (b, w') →
    ∃ dom', domains w' !! this = Some dom'
            ∧ StdSet.well_formed Compare (m_allowed_values dom') = true
            ∧ StdSet.ascending Compare (m_allowed_values dom') = true.
Proof.
  intros Hdom Hwf Hasc Hfresh b w' Hrun.
  destruct (mutators_keep_well_formed Compare value_eq_iterator a this value
              replacement w dom Hdom Hwf Hfresh b w' Hrun)
    as (dom' & Hdom' & Hwf').
  exists dom'. split_and!; [done..|].
  destruct Hrun as [Hrun|[Hrun|Hrun]].
  - rewrite (addAllowedValue_run _ _ _ _ _ _ Hdom) in Hrun.
    injection Hrun as _ <-. unfold store_domain in Hdom'.
    cbn [domains] in Hdom'. rewrite lookup_insert_eq in Hdom'.
    injection Hdom' as <-. by apply ascending_insert.
  - destruct (removeAllowedValue_outcome _ _ _ _ _ _ Hdom Hrun)
      as [(_ & -> & _)|(p & _ & _ & _ & Hdoms & _)]; [congruence|].
    rewrite Hdoms, lookup_insert_eq in Hdom'. injection Hdom' as <-.
    by apply ascending_filter.
  - destruct (replaceAllowedValue_outcome _ _ _ _ _ _ _ _ Hdom Hrun)
      as [[_ ->]|(p & _ & _ & Hdoms & _)]; [congruence|].
    rewrite Hdoms, lookup_insert_eq in Hdom'. injection Hdom' as <-.
    by apply ascending_filter, ascending_insert.
Qed.

(** X9. In a set in ascending order [begin()] is [end()] exactly when no
    value is allowed; otherwise it designates an allowed value that no
    allowed value precedes. *)
Theorem begin_is_least this (w : World) dom :
  domains w !! this = Some dom →
  StdSet.ascending Compare (m_allowed_values dom) = true →
  ∃ it,
    VariableDomain_begin this w = Some it
    ∧ (Some it = VariableDomain_end this w
       ↔ ∀ v, isAllowedValue Compare this v w = Some false)
    ∧ ∀ a, it = node a →
        ∃ x, StdSet.deref it (m_allowed_values dom) = Some x
             ∧ isAllowedValue Compare this x w = Some true
             ∧ ∀ v, isAllowedValue Compare this v w = Some true →
                    Compare v x = false.
Proof.
  intros Hdom Hasc. eexists. split.
  { unfold VariableDomain_begin. by rewrite Hdom. }
  unfold VariableDomain_end, isAllowedValue. rewrite Hdom.
  cbn [mbind option_bind].
  destruct (m_allowed_values dom) as [|[a0 x0] s] eqn:Hs.
  - split; [|done]. split; [|done]. intros _ v. f_equal.
    apply bool_decide_eq_false. by intros ?.
  - cbn [StdSet.begin fst]. split.
    + split; [done|]. intros Hnone. specialize (Hnone x0).
      injection Hnone as Hnone%bool_decide_eq_false. exfalso. apply Hnone.
      cbn [StdSet.find snd]. unfold StdSet.equivalent.
      by rewrite Compare_irrefl.
    + intros a [= <-]. exists x0. split_and!.
      * cbn [StdSet.deref fst snd]. by rewrite decide_True.
      * f_equal. apply bool_decide_eq_true. cbn [StdSet.find snd].
        unfold StdSet.equivalent. by rewrite Compare_irrefl.
      * intros v [= Hv%bool_decide_eq_true].
        destruct (find_cases Compare this v ((a0, x0) :: s))
          as [[Hf _]|(n & Hn & He & _)]; [done|].
        unfold StdSet.equivalent in He.
        apply andb_true_iff in He as [He1%negb_true_iff He2%negb_true_iff].
        apply elem_of_cons in Hn as [->|Hn]; [done|].
        cbn [StdSet.ascending snd] in Hasc.
        apply andb_true_iff in Hasc as [Hhd _].
        rewrite forallb_forall in Hhd.
        apply list_elem_of_In, Hhd in Hn.
        destruct (Compare v x0) eqn:Hvx; [|done].
        by rewrite (Compare_trans _ _ _ Hvx Hn) in He1.
Qed.

Lemma find_erased_other this u value id (s : list (nat * value_type)) :
  StdSet.unique_nodes Compare s →
  (id, value) ∈ s →
  u ≠ value →
  find this u (erased id s) = find this u s.
Proof.
  intros Hun Hid Hne.
  assert (Hun' : StdSet.unique_nodes Compare (erased id s)).
  { eapply unique_nodes_subseteq; [exact Hun|].
    by intros n [? _]%elem_of_erase_filter. }
  destruct (find_cases Compare this u s) as [[Hf Hall]|(n & Hn & He & Hf)].
  - rewrite Hf.
    destruct (find_cases Compare this u (erased id s))
      as [[Hf' _]|(n & [Hn _]%elem_of_erase_filter & He & _)]; [done|].
    by rewrite (Hall n Hn) in He.
  - rewrite Hf. apply (equivalent_eq Compare) in He; [|done..].
    apply (find_unique Compare); [done..|].
    apply elem_of_erase_filter. split; [by destruct n; subst|].
    intros Heq. apply Hne.
    assert (n = (id, value)) as ->; [|done].
    apply Hun; [done..|by left].
Qed.

(** X10. When its test lets it through, removing an allowed value returns
    true; the value is allowed no longer and every other value is allowed
    or not as before; a subscriber that pointed at the value is empty, and
    every other subscriber is as it was. *)
Theorem removeAllowedValue_removes this value (w : World) dom :
  domains w !! this = Some dom →
  StdSet.well_formed Compare (m_allowed_values dom) = true →
  value_eq_iterator value (past_the_end this) = false →
  isAllowedValue Compare this value w = Some true →
  ∃ w' id,
    removeAllowedValue Compare value_eq_iterator this value w
    = Some (true, w')
    ∧ find this value (m_allowed_values dom) = node id
    ∧ isAllowedValue Compare this value w' = Some false
    ∧ (∀ u, u ≠ value →
            isAllowedValue Compare this u w'
            = isAllowedValue Compare this u w)
    ∧ ∀ h var,
        h ∈ m_managed_variables dom →
        variables w !! h = Some var →
        (m_value var = node id →
         ∃ var', variables w' !! h = Some var' ∧ has_value var' = false)
        ∧ (m_value var ≠ node id → variables w' !! h = Some var).
Proof.
  intros Hdom Hwf%well_formed_unique Htest
    (id & Hfind & Hid)%(isAllowedValue_true Compare Compare_irrefl
                          Compare_total _ _ _ _ Hdom).
  destruct (removeAllowedValue_found Compare value_eq_iterator this value
              w dom id Hdom Hfind Htest) as (w' & Hrun & Hdoms & Hvars).
  assert (Hdom' : domains w' !! this
                  = Some (mkDomain (erased id (m_allowed_values dom))
                                   (m_managed_variables dom))).
  { by rewrite Hdoms, lookup_insert_eq. }
  exists w', id. split_and!; [done..| | |].
  - eapply (isAllowedValue_no_elem Compare); [done..|].
    cbn [m_allowed_values]. intros n [Hn Hn1]%elem_of_erase_filter Hval.
    apply Hn1. assert (n = (id, value)) as ->; [|done].
    apply Hwf; [done..|]. right. rewrite Hval.
    by apply (equivalent_eq Compare).
  - intros u Hu. unfold isAllowedValue. rewrite Hdom, Hdom'.
    cbn [mbind option_bind m_allowed_values].
    by rewrite (find_erased_other this u value id).
  - intros h var Hh Hvar. rewrite Hvars, decide_True, Hvar by done.
    cbn [fmap option_fmap option_map].
    unfold DomainRestrictedVariable_deletionNotice. split.
    + intros Hp. rewrite decide_True by done. by eexists.
    + intros Hp. by rewrite decide_False.
Qed.

(** X11. Whenever [removeAllowedValues] returns, it has kept the set well
    formed, the registry as it was, and every subscriber empty or pointing
    into the set. *)
Theorem removeAllowedValues_keeps_invariant this ilist (w w' : World) dom :
  domains w !! this = Some dom →
  StdSet.well_formed Compare (m_allowed_values dom) = true →
  (∀ h, h ∈ m_managed_variables dom → subscriber_consistent dom w h = true) →
  removeAllowedValues Compare value_eq_iterator this ilist w = Some w' →
  ∃ dom',
    domains w' !! this = Some dom'
    ∧ m_managed_variables dom' = m_managed_variables dom
    ∧ StdSet.well_formed Compare (m_allowed_values dom') = true
    ∧ ∀ h, h ∈ m_managed_variables dom' →
           subscriber_consistent dom' w' h = true.
Proof.
  revert w dom. induction ilist as [|value ilist IH];
    intros w dom Hdom Hwf Hcons Hrun.
  - injection Hrun as <-. by exists dom.
  - cbn [removeAllowedValues] in Hrun.
    destruct (removeAllowedValue Compare value_eq_iterator this value w)
      as [[b w1]|] eqn:Hone; [|done].
    cbn [mbind option_bind snd] in Hrun.
    destruct (removeAllowedValue_keeps_subscribers_consistent Compare
                value_eq_iterator this value w dom Hdom Hcons b w1 Hone)
      as (dom1 & Hdom1 & Hsubs1 & Hcons1).
    assert (Hwf1 : StdSet.well_formed Compare (m_allowed_values dom1) = true).
    { destruct (removeAllowedValue_outcome _ _ _ _ _ _ Hdom Hone)
        as [(_ & -> & _)|(p & _ & _ & _ & Hdoms & _)]; [congruence|].
      rewrite Hdoms, lookup_insert_eq in Hdom1. injection Hdom1 as <-.
      by apply well_formed_filter. }
    destruct (IH w1 dom1 Hdom1 Hwf1 Hcons1 Hrun)
      as (dom' & Hdom' & Hsubs' & Hwf' & Hcons').
    exists dom'. split_and!; [done|congruence|done..].
Qed.

(** X12. A list that names a value twice cannot be removed: when the test
    lets the calls through, the second removal of the value finds nothing
    and erases [end()]. *)
Theorem removeAllowedValues_twice this value ilist (w : World) dom :
  domains w !! this = Some dom →
  StdSet.well_formed Compare (m_allowed_values dom) = true →
  value_eq_iterator value (past_the_end this) = false →
  removeAllowedValues Compare value_eq_iterator this
    (value :: value :: ilist) w = None.
Proof.
  intros Hdom Hwf Htest. cbn [removeAllowedValues].
  destruct (removeAllowedValue Compare value_eq_iterator this value w)
    as [[b w1]|] eqn:Hone; [|done].
  cbn [mbind option_bind snd].
  destruct (removeAllowedValue_outcome _ _ _ _ _ _ Hdom Hone)
    as [(_ & _ & Htrue)|(p & _ & _ & Hfind & Hdoms & _)]; [congruence|].
  assert (Hdom1 : domains w1 !! this
                  = Some (mkDomain (erased p (m_allowed_values dom))
                                   (m_managed_variables dom))).
  { by rewrite Hdoms, lookup_insert_eq. }
  rewrite (removeAllowedValue_not_found _ _ _ _ _ _ Hdom1); [done| |done].
  cbn [m_allowed_values].
  destruct (find_cases Compare this value
              (erased p (m_allowed_values dom)))
    as [[Hf _]|(n & [Hn Hn1]%elem_of_erase_filter & He & _)]; [done|].
  exfalso. apply Hn1.
  apply (find_node_elem Compare) in Hfind; [|done..].
  apply (equivalent_eq Compare) in He; [|done..].
  assert (n = (p, value)) as ->; [|done].
  apply (well_formed_unique _ _ Hwf); [done..|]. right. rewrite He.
  by apply (equivalent_eq Compare).
Qed.

(** X13. No mutator of a domain gives a value to a variable that has none:
    a variable whose slot is [nullptr] is the same after any
    [addAllowedValue], [removeAllowedValue] or [replaceAllowedValue]. *)
Theorem empty_stays_empty a this value replacement (w : World) dom h var :
  domains w !! this = Some dom →
  variables w !! h = Some var →
  m_value var = nullptr →
  ∀ b w',
    addAllowedValue Compare a this value w = Some (b, w')
    ∨ removeAllowedValue Compare value_eq_iterator this value w = Some (b, w')
    ∨ replaceAllowedValue Compare a this value replacement w = Some (b, w') →
    variables w' !! h = Some var.
Proof.
  intros Hdom Hvar Hempty b w' [Hrun|[Hrun|Hrun]].
  - rewrite (addAllowedValue_run _ _ _ _ _ _ Hdom) in Hrun.
    by injection Hrun as _ <-.
  - destruct (removeAllowedValue_outcome _ _ _ _ _ _ Hdom Hrun)
      as [(_ & -> & _)|(p & _ & _ & _ & _ & Hvars)]; [done|].
    rewrite Hvars, Hvar. cbn [fmap option_fmap option_map].
    unfold DomainRestrictedVariable_deletionNotice.
    destruct (decide (m_value var = node p)) as [Hp|_];
      [by rewrite Hempty in Hp|]. by case_decide.
  - destruct (replaceAllowedValue_outcome _ _ _ _ _ _ _ _ Hdom Hrun)
      as [[_ ->]|(p & _ & _ & _ & Hvars)]; [done|].
    rewrite Hvars, Hvar. cbn [fmap option_fmap option_map].
    unfold DomainRestrictedVariable_replacementNotice.
    destruct (decide (m_value var = node p)) as [Hp|_];
      [by rewrite Hempty in Hp|]. by case_decide.
Qed.
End mutators.

(** ** The variable: construction, copies, destruction, conversion *)

Section variable_extras.
Context {value_type : Type}.
Variable Compare : value_type → value_type → bool.
Hypothesis Compare_irrefl : ∀ x, Compare x x = false.
Hypothesis Compare_total :
  ∀ x y, Compare x y = false → Compare y x = false → x = y.

#[local] Abbreviation World := (world value_type).

(** X14. A copy holds what the original holds and is in the registry of
    the same domain; the original is as it was.  The two are independent:
    clearing either leaves the other with its slot and its value. *)
Theorem copy_is_independent this other (w : World) o dom :
  variables w !! other = Some o →
  domains w !! (m_domain o) = Some dom →
  this ≠ other →
  ∃ w' dom',
    DomainRestrictedVariable_ctor_copy this other w = Some w'
    ∧ variables w' !! this = Some o
    ∧ variables w' !! other = Some o
    ∧ domains w' !! (m_domain o) = Some dom'
    ∧ m_allowed_values dom' = m_allowed_values dom
    ∧ m_managed_variables dom' = {[this]} ∪ m_managed_variables dom
    ∧ (∃ w'', DomainRestrictedVariable_clear other w' = Some w''
              ∧ variables w'' !! this = Some o
              ∧ operator_value_type this w'' = operator_value_type other w)
    ∧ (∃ w'', DomainRestrictedVariable_clear this w' = Some w''
              ∧ variables w'' !! other = Some o
              ∧ operator_value_type other w'' = operator_value_type other w).
Proof.
  intros Ho Hdom Hne. eexists _, _. split_and!.
  - unfold DomainRestrictedVariable_ctor_copy, subscribeVariable,
      store_variable, store_domain.
    rewrite Ho. cbn -[union]. simplify_map_eq. reflexivity.
  - cbn [variables]. simplify_map_eq. by rewrite variable_eta.
  - cbn [variables]. by simplify_map_eq.
  - cbn [domains]. by simplify_map_eq.
  - done.
  - done.
  - eexists. split_and!.
    + unfold DomainRestrictedVariable_clear, set_m_value, store_variable.
      cbn [variables]. simplify_map_eq. reflexivity.
    + cbn [variables]. simplify_map_eq. by rewrite variable_eta.
    + unfold operator_value_type. cbn [variables domains].
      by simplify_map_eq.
  - eexists. split_and!.
    + unfold DomainRestrictedVariable_clear, set_m_value, store_variable.
      cbn [variables]. simplify_map_eq. reflexivity.
    + cbn [variables]. by simplify_map_eq.
    + unfold operator_value_type. cbn [variables domains].
      by simplify_map_eq.
Qed.

Lemma deref_not_node it (s : list (nat * value_type)) :
  (∀ a, it ≠ node a) → StdSet.deref it s = None.
Proof.
  intros Hit. destruct (StdSet.deref it s) as [x|] eqn:Hx; [|done].
  apply deref_elem in Hx as (a & -> & _). by destruct (Hit a).
Qed.

(** X17. A variable constructed from a domain alone is in the registry of
    the domain and points at the end of its set: [has_value] answers true
    and the conversion to a value is undefined.  After [clear] it answers
    false. *)
Theorem ctor_domain_points_at_end this domain (w : World) dom :
  domains w !! domain = Some dom →
  ∃ w' dom' w'',
    DomainRestrictedVariable_ctor_domain this domain w = Some w'
    ∧ variables w' !! this = Some (mkVariable domain (past_the_end domain))
    ∧ (has_value <$> variables w' !! this) = Some true
    ∧ operator_value_type this w' = None
    ∧ domains w' !! domain = Some dom'
    ∧ m_managed_variables dom' = {[this]} ∪ m_managed_variables dom
    ∧ DomainRestrictedVariable_clear this w' = Some w''
    ∧ (has_value <$> variables w'' !! this) = Some false.
Proof.
  intros Hdom. eexists _, _, _. split_and!.
  - unfold DomainRestrictedVariable_ctor_domain, subscribeVariable,
      store_variable, store_domain.
    rewrite Hdom. cbn -[union]. rewrite Hdom. reflexivity.
  - cbn [variables]. by simplify_map_eq.
  - cbn [variables]. by simplify_map_eq.
  - unfold operator_value_type. cbn [variables domains]. simplify_map_eq.
    by apply deref_not_node.
  - cbn [domains]. by simplify_map_eq.
  - done.
  - unfold DomainRestrictedVariable_clear, set_m_value, store_variable.
    cbn [variables]. simplify_map_eq. reflexivity.
  - cbn [variables]. by simplify_map_eq.
Qed.

(** X18. A variable constructed from a domain and a value that the domain
    allows points at the node of that value: it has a value, the value
    reads back, and the variable is in the registry. *)
Theorem ctor_value_reads_back this domain value (w : World) dom :
  domains w !! domain = Some dom →
  StdSet.well_formed Compare (m_allowed_values dom) = true →
  isAllowedValue Compare domain value w = Some true →
  ∃ w' id dom',
    DomainRestrictedVariable_ctor_value Compare this domain value w = Some w'
    ∧ variables w' !! this = Some (mkVariable domain (node id))
    ∧ StdSet.find Compare domain value (m_allowed_values dom) = node id
    ∧ operator_value_type this w' = Some value
    ∧ domains w' !! domain = Some dom'
    ∧ m_managed_variables dom' = {[this]} ∪ m_managed_variables dom
    ∧ m_allowed_values dom' = m_allowed_values dom.
Proof.
  intros Hdom Hwf%well_formed_unique
    (id & Hfind & Hid)%(isAllowedValue_true Compare Compare_irrefl
                          Compare_total _ _ _ _ Hdom).
  eexists _, id, _. split_and!.
  - unfold DomainRestrictedVariable_ctor_value, subscribeVariable,
      store_variable, store_domain.
    rewrite Hdom. cbn -[union]. rewrite Hdom, Hfind. reflexivity.
  - cbn [variables]. by simplify_map_eq.
  - done.
  - unfold operator_value_type. cbn [variables domains]. simplify_map_eq.
    by apply (deref_unique Compare).
  - cbn [domains]. by simplify_map_eq.
  - done.
  - done.
Qed.

(** X20. Destroying a variable takes it out of the world and out of the
    registry of its domain; every other variable, every set of allowed
    values and every other registry is as it was. *)
Theorem variable_dtor_frame this (w : World) var dom :
  variables w !! this = Some var →
  domains w !! (m_domain var) = Some dom →
  ∃ w',
    DomainRestrictedVariable_dtor this w = Some w'
    ∧ variables w' !! this = None
    ∧ (∀ h, h ≠ this → variables w' !! h = variables w !! h)
    ∧ domains w' !! (m_domain var)
      = Some (mkDomain (m_allowed_values dom)
                       (m_managed_variables dom ∖ {[this]}))
    ∧ ∀ d, d ≠ m_domain var → domains w' !! d = domains w !! d.
Proof.
  intros Hvar Hdom. eexists. split_and!.
  - by apply DomainRestrictedVariable_dtor_run.
  - cbn [variables]. by simplify_map_eq.
  - intros h Hh. cbn [variables]. by simplify_map_eq.
  - cbn [domains]. by simplify_map_eq.
  - intros d Hd. cbn [domains]. by simplify_map_eq.
Qed.

(** X21. The registry is a set: subscribing a subscriber and unsubscribing
    a variable that is not subscribed change nothing, unsubscribing twice
    is unsubscribing once, and subscribing a new variable and
    unsubscribing it again gives back the world there was. *)
Theorem registry_is_a_set this ptr (w : World) dom :
  domains w !! this = Some dom →
  (ptr ∈ m_managed_variables dom → subscribeVariable this ptr w = Some w)
  ∧ (ptr ∉ m_managed_variables dom →
     unsubscribeVariable this ptr w = Some w
     ∧ subscribeVariable this ptr w ≫= unsubscribeVariable this ptr
       = Some w)
  ∧ unsubscribeVariable this ptr w ≫= unsubscribeVariable this ptr
    = unsubscribeVariable this ptr w.
Proof.
  clear Compare_irrefl Compare_total Compare.
  intros Hdom.
  assert (Hsame : ∀ subscribers,
    subscribers = m_managed_variables dom →
    store_domain this (mkDomain (m_allowed_values dom) subscribers) w = w).
  { intros ? ->. by apply store_domain_same. }
  split_and!.
  - intros Hin. unfold subscribeVariable. rewrite Hdom.
    cbn -[union]. f_equal. apply Hsame. set_solver.
  - intros Hout. split.
    + unfold unsubscribeVariable. rewrite Hdom.
      cbn -[difference]. f_equal. apply Hsame. set_solver.
    + unfold subscribeVariable, unsubscribeVariable. rewrite Hdom.
      cbn -[union difference]. unfold store_domain at 2. cbn [domains].
      rewrite lookup_insert_eq.
      cbn -[union difference]. f_equal. unfold store_domain.
      cbn [domains variables]. rewrite insert_insert_eq.
      apply Hsame. set_solver.
  - unfold unsubscribeVariable. rewrite Hdom.
    cbn -[difference]. unfold store_domain at 2. cbn [domains].
    rewrite lookup_insert_eq.
    cbn -[difference]. f_equal. unfold store_domain.
    cbn [domains variables]. rewrite insert_insert_eq.
    do 3 f_equal. set_solver.
Qed.

(** X22. The conversion to a value is defined exactly when the slot of the
    variable is the address of a node of the set of its domain, and then
    it is the element stored there. *)
Theorem conversion_defined_on_nodes this (w : World) var dom x :
  variables w !! this = Some var →
  domains w !! (m_domain var) = Some dom →
  StdSet.well_formed Compare (m_allowed_values dom) = true →
  operator_value_type this w = Some x
  ↔ ∃ a, m_value var = node a ∧ (a, x) ∈ m_allowed_values dom.
Proof.
  intros Hvar Hdom Hwf%well_formed_unique.
  unfold operator_value_type. rewrite Hvar. cbn [mbind option_bind].
  rewrite Hdom. cbn [mbind option_bind]. split.
  - by intros ?%deref_elem.
  - intros (a & -> & Ha). by apply (deref_unique Compare).
Qed.

End variable_extras.

(** ** The further theorems at work on the example *)

Section extras_example.
Import Example.

#[local] Abbreviation never_equal := (λ (_ : Z) (_ : pointer), false).

Lemma less_trans x y z : less x y = true → less y z = true → less x z = true.
Proof. unfold less. rewrite !Z.ltb_lt. lia. Qed.

Lemma subscribers_of_d123_consistent h :
  h ∈ m_managed_variables d123 → subscriber_consistent d123 w0 h = true.
Proof.
  cbn. intros [->%elem_of_singleton| ->%elem_of_singleton]%elem_of_union;
    by vm_compute.
Qed.

(** Adding 5 to 1, 2, 3. *)
Lemma addAllowedValue_inserts_witness :
  ∃ w', addAllowedValue less 40 0 5%Z w0 = Some (true, w')
        ∧ isAllowedValue less 0 5%Z w' = Some true.
Proof.
  destruct (addAllowedValue_inserts less less_irrefl 40 0 5%Z w0 d123)
    as (b & w' & dom' & Hrun & Hbefore & Hafter & _).
  - reflexivity.
  - vm_compute in Hbefore. destruct b; [|discriminate Hbefore].
    exists w'. split; assumption.
Defined.

Lemma addAllowedValue_keeps_references_witness :
  ∃ w', addAllowedValue less 40 0 5%Z w0 = Some (true, w')
        ∧ operator_value_type 100 w' = Some 2%Z.
Proof.
  eexists. split; [vm_compute; reflexivity|].
  eapply (addAllowedValue_keeps_references less 40 0 5%Z w0 d123).
  - reflexivity.
  - vm_compute. reflexivity.
  - vm_compute. reflexivity.
  - vm_compute. reflexivity.
Defined.

Lemma addAllowedValue_present_witness :
  addAllowedValue less 40 0 2%Z w0 = Some (false, w0).
Proof.
  apply (addAllowedValue_present less 40 0 2%Z w0 d123).
  - reflexivity.
  - vm_compute. reflexivity.
Defined.

Lemma addAllowedValues_allows_witness :
  ∃ w', addAllowedValues less 0 [(40, 5%Z); (50, 2%Z)] w0 = Some w'
        ∧ isAllowedValue less 0 5%Z w' = Some true.
Proof.
  destruct (addAllowedValues_allows less less_irrefl less_total
              0 [(40, 5%Z); (50, 2%Z)] w0 d123) as (w' & Hrun & _ & Hiff).
  - reflexivity.
  - exists w'. split; [assumption|]. apply Hiff. right. cbn. by left.
Defined.

Lemma VariableDomain_ctor_builds_witness :
  ∃ dom,
    domains (VariableDomain_ctor less 1 [(10, 3%Z); (20, 1%Z); (30, 3%Z)] w0)
      !! 1 = Some dom
    ∧ m_managed_variables dom = ∅
    ∧ StdSet.well_formed less (m_allowed_values dom) = true
    ∧ StdSet.ascending less (m_allowed_values dom) = true.
Proof.
  destruct (VariableDomain_ctor_builds less less_irrefl less_total less_trans
              1 [(10, 3%Z); (20, 1%Z); (30, 3%Z)] w0)
    as (dom & Hdom & Hsubs & Hwf & Hasc & _).
  - cbn. repeat (apply NoDup_cons_2; [set_solver|]). apply NoDup_nil_2.
  - exists dom. split_and!; assumption.
Defined.

Lemma VariableDomain_ctor_dtor_witness :
  VariableDomain_dtor 1 (VariableDomain_ctor less 1 [(10, 3%Z)] w0)
  = Some (destroyed w0).
Proof.
  apply (VariableDomain_ctor_dtor less 1 [(10, 3%Z)] w0). reflexivity.
Defined.

Lemma mutators_keep_the_set_ordered_witness :
  ∃ b w' dom',
    replaceAllowedValue less 40 0 2%Z 7%Z w0 = Some (b, w')
    ∧ domains w' !! 0 = Some dom'
    ∧ StdSet.well_formed less (m_allowed_values dom') = true
    ∧ StdSet.ascending less (m_allowed_values dom') = true.
Proof.
  edestruct (mutators_keep_the_set_ordered less never_equal less_trans
               40 0 2%Z 7%Z w0 d123) as (dom' & Hdom' & Hwf & Hasc).
  - reflexivity.
  - vm_compute. reflexivity.
  - vm_compute. reflexivity.
  - vm_compute. reflexivity.
  - right. right. vm_compute. reflexivity.
  - eexists _, _, dom'. split_and!; [vm_compute; reflexivity|..];
      eassumption.
Defined.

Lemma begin_is_least_witness :
  VariableDomain_begin 0 w0 = Some (node 10)
  ∧ ∀ v, isAllowedValue less 0 v w0 = Some true → less v 1%Z = false.
Proof.
  destruct (begin_is_least less less_irrefl less_trans 0 w0 d123)
    as (it & Hbegin & _ & Hleast).
  - reflexivity.
  - vm_compute. reflexivity.
  - vm_compute in Hbegin. injection Hbegin as <-.
    destruct (Hleast 10 eq_refl) as (x & Hx & _ & Hall).
    vm_compute in Hx. injection Hx as <-.
    split; [vm_compute; reflexivity | exact Hall].
Defined.

Lemma removeAllowedValue_removes_witness :
  ∃ w', removeAllowedValue less never_equal 0 2%Z w0 = Some (true, w')
        ∧ isAllowedValue less 0 2%Z w' = Some false
        ∧ ∃ var', variables w' !! 100 = Some var' ∧ has_value var' = false.
Proof.
  destruct (removeAllowedValue_removes less never_equal less_irrefl less_total
              0 2%Z w0 d123)
    as (w' & id & Hrun & Hfind & Hgone & _ & Hvars).
  - reflexivity.
  - vm_compute. reflexivity.
  - reflexivity.
  - vm_compute. reflexivity.
  - vm_compute in Hfind. injection Hfind as <-.
    destruct (Hvars 100 (mkVariable 0 (node 20))) as [Hcleared _].
    + exact subscribed_100.
    + vm_compute. reflexivity.
    + exists w'. split_and!; [assumption..|]. by apply Hcleared.
Defined.

Lemma removeAllowedValues_keeps_invariant_witness :
  ∃ w' dom',
    removeAllowedValues less never_equal 0 [2%Z; 3%Z] w0 = Some w'
    ∧ domains w' !! 0 = Some dom'
    ∧ StdSet.well_formed less (m_allowed_values dom') = true.
Proof.
  destruct (removeAllowedValues less never_equal 0 [2%Z; 3%Z] w0)
    as [w'|] eqn:Hrun; [|vm_compute in Hrun; discriminate Hrun].
  destruct (removeAllowedValues_keeps_invariant less never_equal
              0 [2%Z; 3%Z] w0 w' d123) as (dom' & Hdom' & _ & Hwf & _).
  - reflexivity.
  - vm_compute. reflexivity.
  - exact subscribers_of_d123_consistent.
  - exact Hrun.
  - exists w', dom'. split_and!; [reflexivity|assumption..].
Defined.

Lemma removeAllowedValues_twice_witness :
  removeAllowedValues less never_equal 0 [2%Z; 2%Z] w0 = None.
Proof.
  apply (removeAllowedValues_twice less never_equal less_irrefl less_total
           0 2%Z [] w0 d123).
  - reflexivity.
  - vm_compute. reflexivity.
  - reflexivity.
Defined.

Lemma empty_stays_empty_witness :
  ∃ w', replaceAllowedValue less 40 0 1%Z 7%Z w13 = Some (true, w')
        ∧ variables w' !! 100 = Some (mkVariable 0 nullptr).
Proof.
  eexists. split; [vm_compute; reflexivity|].
  eapply (empty_stays_empty less never_equal 40 0 1%Z 7%Z w13 d13 100).
  - reflexivity.
  - vm_compute. reflexivity.
  - reflexivity.
  - right. right. vm_compute. reflexivity.
Defined.

Lemma copy_is_independent_witness :
  ∃ w' w'',
    DomainRestrictedVariable_ctor_copy 102 100 w0 = Some w'
    ∧ DomainRestrictedVariable_clear 100 w' = Some w''
    ∧ operator_value_type 102 w'' = Some 2%Z.
Proof.
  destruct (copy_is_independent 102 100 w0 (mkVariable 0 (node 20)) d123)
    as (w' & dom' & Hrun & _ & _ & _ & _ & _
        & (w'' & Hclear & _ & Hvalue) & _).
  - reflexivity.
  - reflexivity.
  - lia.
  - exists w', w''. split_and!; [assumption..|]. rewrite Hvalue.
    vm_compute. reflexivity.
Defined.

Lemma ctor_domain_points_at_end_witness :
  ∃ w', DomainRestrictedVariable_ctor_domain 102 0 w0 = Some w'
        ∧ (has_value <$> variables w' !! 102) = Some true
        ∧ operator_value_type 102 w' = None.
Proof.
  destruct (ctor_domain_points_at_end 102 0 w0 d123)
    as (w' & dom' & w'' & Hrun & _ & Hhas & Hvalue & _); [reflexivity|].
  exists w'. split_and!; assumption.
Defined.

Lemma ctor_value_reads_back_witness :
  ∃ w', DomainRestrictedVariable_ctor_value less 102 0 3%Z w0 = Some w'
        ∧ operator_value_type 102 w' = Some 3%Z.
Proof.
  destruct (ctor_value_reads_back less less_irrefl less_total
              102 0 3%Z w0 d123)
    as (w' & id & dom' & Hrun & _ & _ & Hvalue & _).
  - reflexivity.
  - vm_compute. reflexivity.
  - vm_compute. reflexivity.
  - exists w'. split; assumption.
Defined.

Lemma variable_dtor_frame_witness :
  ∃ w', DomainRestrictedVariable_dtor 100 w0 = Some w'
        ∧ variables w' !! 100 = None
        ∧ variables w' !! 101 = Some (mkVariable 0 (node 10)).
Proof.
  destruct (variable_dtor_frame 100 w0 (mkVariable 0 (node 20)) d123)
    as (w' & Hrun & Hgone & Hothers & _); [reflexivity..|].
  exists w'. split_and!; [assumption..|]. rewrite Hothers by lia.
  reflexivity.
Defined.

Lemma registry_is_a_set_witness :
  subscribeVariable 0 100 w0 = Some w0
  ∧ unsubscribeVariable 0 100 w0 ≫= unsubscribeVariable 0 100
    = unsubscribeVariable 0 100 w0.
Proof.
  destruct (registry_is_a_set 0 100 w0 d123) as (Hin & _ & Htwice);
    [reflexivity|].
  split; [apply Hin; exact subscribed_100 | exact Htwice].
Defined.

Lemma conversion_defined_on_nodes_witness :
  operator_value_type 100 w0 = Some 2%Z
  ↔ ∃ a, node 20 = node a ∧ (a, 2%Z) ∈ m_allowed_values d123.
Proof.
  apply (conversion_defined_on_nodes less 100 w0 (mkVariable 0 (node 20))
           d123 2%Z).
  - reflexivity.
  - reflexivity.
  - vm_compute. reflexivity.
Defined.

End extras_example.
